(** * mcp-remote: a shallow embedding of the proxy core

    The development follows the TypeScript sources:
    - [node-oauth-client-provider.ts] (class [NodeOAuthClientProvider]),
    - [authorization-server-metadata.ts],
    - [proxy.ts] ([runProxy] and its [authInitializer]),
    and, for the parts of the repository whose sources are not available
    ([coordination.ts], [utils.ts]), the prose specification.

    JavaScript strings are sequences of UTF-16 code units; effects (logging,
    file reads, agent construction, browser launch, timers) are recorded in a
    trace, and exceptions are an explicit [Throw] result. *)

From Stdlib Require Import String Ascii List NArith ZArith Bool Lia DecimalString.
Import ListNotations.

Set Implicit Arguments.

(* ===================================================================== *)
(** * JavaScript strings *)
(* ===================================================================== *)

Module JS.

(** A string is the list of its UTF-16 code units. *)
Definition jschar := N.
Definition jsstring := list jschar.

(** Source literals. *)
Definition js (s : string) : jsstring :=
  List.map N_of_ascii (list_ascii_of_string s).

Definition jsstring_eq_dec : forall a b : jsstring, {a = b} + {a <> b} :=
  list_eq_dec N.eq_dec.

Definition jsstring_eqb (a b : jsstring) : bool :=
  if jsstring_eq_dec a b then true else false.

(** Truthiness of a string: every string but the empty one. *)
Definition truthy (s : jsstring) : bool :=
  match s with [] => false | _ :: _ => true end.

(** Truthiness of an optional string property ([undefined] is falsy). *)
Definition truthy_opt (o : option jsstring) : bool :=
  match o with Some s => truthy s | None => false end.

(** [a || b] on an optional string with a string default. *)
Definition or_default (o : option jsstring) (d : jsstring) : jsstring :=
  match o with
  | Some s => if truthy s then s else d
  | None => d
  end.

(** ECMAScript [WhiteSpace] and [LineTerminator] code points, the ones
    [String.prototype.trim] strips. *)
Definition is_ws (c : jschar) : bool :=
  (   (c =? 9) || (c =? 10) || (c =? 11) || (c =? 12) || (c =? 13)
   || (c =? 32) || (c =? 160) || (c =? 5760)
   || ((8192 <=? c) && (c <=? 8202))
   || (c =? 8232) || (c =? 8233) || (c =? 8239) || (c =? 8287)
   || (c =? 12288) || (c =? 65279))%N.

Fixpoint trimStart (s : jsstring) : jsstring :=
  match s with
  | [] => []
  | c :: r => if is_ws c then trimStart r else s
  end.

Definition trimEnd (s : jsstring) : jsstring := rev (trimStart (rev s)).

(** [String.prototype.trim]. *)
Definition trim (s : jsstring) : jsstring := trimEnd (trimStart s).

(** [Array.prototype.join] on an array of strings. *)
Fixpoint join (sep : jsstring) (l : list jsstring) : jsstring :=
  match l with
  | [] => []
  | [x] => x
  | x :: r => x ++ sep ++ join sep r
  end.

(** [String(n)] for a non-negative integer. *)
Definition of_N (n : N) : jsstring :=
  js (NilZero.string_of_uint (N.to_uint n)).

End JS.
Export JS.

(* ===================================================================== *)
(** * Effects: traces and exceptions *)
(* ===================================================================== *)

Module Eff.

(** A thrown JavaScript [Error]: its name and message. *)
Record error := Error { err_name : jsstring; err_message : jsstring }.

(** [`${error}`]: ["Name: message"]. *)
Definition String_of_error (e : error) : jsstring :=
  err_name e ++ js ": " ++ err_message e.

Definition Buffer := list N.

(** The [connect] options handed to undici's [Agent]. *)
Record tlsOptions := mkTlsOptions {
  opt_cert : option Buffer;
  opt_key : option Buffer;
  opt_ca : option Buffer;
  opt_passphrase : option jsstring;
  opt_rejectUnauthorized : option bool
}.

Definition no_tlsOptions : tlsOptions := mkTlsOptions None None None None None.

(** [new Agent({ connect: tlsOptions })]. *)
Record Agent := mkAgent { connect : tlsOptions }.

(** Observable effects, in program order. [DebugLog] keeps the message
    (first argument) of [debugLog]. *)
Inductive event :=
| Log (msg : jsstring)
| DebugLog (msg : jsstring)
| ReadFileSync (path : jsstring)
| NewAgent (options : tlsOptions)
| FetchRequest (url : jsstring) (dispatcher : option Agent)
| Open (url : jsstring)
| SetTimeout (ms : Z).

Definition trace := list event.

Inductive result (A : Type) :=
| Ok (a : A)
| Throw (e : error).
Arguments Ok {A} a.
Arguments Throw {A} e.

(** A computation: the effects it performed and how it ended. *)
Definition comp (A : Type) : Type := trace * result A.

Definition ret {A} (a : A) : comp A := ([], Ok a).

Definition bind {A B} (m : comp A) (k : A -> comp B) : comp B :=
  match m with
  | (t, Ok a) => let (t', r) := k a in (t ++ t', r)
  | (t, Throw e) => (t, Throw e)
  end.

Definition emit (ev : event) : comp unit := ([ev], Ok tt).

Definition throw {A} (e : error) : comp A := ([], Throw e).

(** [try { m } catch (e) { h e }]. *)
Definition try_catch {A} (m : comp A) (h : error -> comp A) : comp A :=
  match m with
  | (t, Throw e) => let (t', r) := h e in (t ++ t', r)
  | (t, Ok a) => (t, Ok a)
  end.

Definition log (msg : jsstring) : comp unit := emit (Log msg).
Definition debugLog (msg : jsstring) : comp unit := emit (DebugLog msg).

Definition events {A} (m : comp A) : trace := fst m.
Definition outcome {A} (m : comp A) : result A := snd m.

Definition is_Ok {A} (r : result A) : bool :=
  match r with Ok _ => true | Throw _ => false end.

Declare Scope comp_scope.
Delimit Scope comp_scope with comp.
Notation "x <- m ;; k" := (bind m (fun x => k))
  (at level 61, m at next level, right associativity) : comp_scope.
Notation "m ;; k" := (bind m (fun _ => k))
  (at level 61, right associativity) : comp_scope.

End Eff.
Export Eff.
Open Scope comp_scope.

(* ===================================================================== *)
(** * types.ts *)
(* ===================================================================== *)

Module Types.

(** [TLSClientCertConfig]: every field is optional. *)
Record TLSClientCertConfig := mkTLSClientCertConfig {
  cert : option jsstring;
  key : option jsstring;
  ca : option jsstring;
  passphrase : option jsstring;
  rejectUnauthorized : option bool
}.

(** A JavaScript object of the OAuth schemas, as its list of own
    properties; the values that occur are strings and arrays of strings. *)
Inductive jsvalue :=
| VString (s : jsstring)
| VStrings (l : list jsstring).

Definition jsobject := list (string * jsvalue).

Fixpoint obj_get (k : string) (o : jsobject) : option jsvalue :=
  match o with
  | [] => None
  | (k', v) :: r => if String.eqb k k' then Some v else obj_get k r
  end.

(** [o[k] = v]: overwrite in place, or add the property at the end. *)
Fixpoint obj_set (k : string) (v : jsvalue) (o : jsobject) : jsobject :=
  match o with
  | [] => [(k, v)]
  | (k', v') :: r =>
      if String.eqb k k' then (k', v) :: r else (k', v') :: obj_set k v r
  end.

(** [{ ...o, ...ext }]. *)
Definition obj_spread (o ext : jsobject) : jsobject :=
  fold_left (fun acc kv => obj_set (fst kv) (snd kv) acc) ext o.

(** [o?.scope] for an [OAuthClientMetadata | null | undefined]; the schema
    types the property as an optional string. *)
Definition scope_of (o : option jsobject) : option jsstring :=
  match o with
  | Some props =>
      match obj_get "scope" props with
      | Some (VString s) => Some s
      | _ => None
      end
  | None => None
  end.

(** [AuthorizationServerMetadata] (RFC 8414): the fields the code reads, and
    the additional ones. *)
Record AuthorizationServerMetadata := mkAuthorizationServerMetadata {
  issuer : jsstring;
  scopes_supported : option (list jsstring);
  additional_fields : jsobject
}.

(** [StaticOAuthClientMetadata] and [StaticOAuthClientInformationFull]. *)
Definition StaticOAuthClientMetadata := option jsobject.
Definition OAuthClientInformationFull := jsobject.
Definition StaticOAuthClientInformationFull := option OAuthClientInformationFull.

(** [OAuthProviderOptions]. *)
Record OAuthProviderOptions := mkOAuthProviderOptions {
  serverUrl : jsstring;
  callbackPort : N;
  host : jsstring;
  callbackPath : option jsstring;
  clientName : option jsstring;
  clientUri : option jsstring;
  softwareId : option jsstring;
  softwareVersion : option jsstring;
  staticOAuthClientMetadata : StaticOAuthClientMetadata;
  staticOAuthClientInfo : StaticOAuthClientInformationFull;
  authorizeResource : option jsstring;
  serverUrlHash : jsstring;
  authorizationServerMetadata : option AuthorizationServerMetadata;
  tlsClientCert : option TLSClientCertConfig
}.

(** [OAuthTokens] of the SDK. *)
Record OAuthTokens := mkOAuthTokens {
  access_token : jsstring;
  refresh_token : option jsstring;
  expires_in : option Z
}.

End Types.
Export Types.

(* ===================================================================== *)
(** * node-oauth-client-provider.ts: the TLS agent *)
(* ===================================================================== *)

Module TLSAgent.

(** [readFileSync]: the file's bytes, or the error it throws. *)
Definition filesystem := jsstring -> result Buffer.

Definition readFileSync (fs : filesystem) (path : jsstring) : comp Buffer :=
  ([ReadFileSync path], fs path).

Definition WARNING_verification_disabled : jsstring :=
  js "WARNING: TLS certificate verification disabled (rejectUnauthorized: false)".

(** One of the three [if (this.tlsClientCert.X) { ... try/catch ... }]
    blocks of [createTLSAgent]; [what] is the text that varies in the
    messages and [store] the assignment to [tlsOptions]. *)
Definition load_file (fs : filesystem) (field : option jsstring)
    (what : jsstring) (store : Buffer -> tlsOptions -> tlsOptions)
    (opts : tlsOptions) : comp tlsOptions :=
  match field with
  | Some path =>
      if truthy path then
        debugLog (js "Loading TLS " ++ what) ;;
        try_catch
          (buf <- readFileSync fs path ;;
           log (js "Loaded TLS " ++ what ++ js " from: " ++ path) ;;
           ret (store buf opts))
          (fun error =>
             log (js "Error loading TLS " ++ what ++ js ": " ++ String_of_error error) ;;
             throw error)
      else ret opts
  | None => ret opts
  end.

Definition set_cert (b : Buffer) (o : tlsOptions) : tlsOptions :=
  mkTlsOptions (Some b) (opt_key o) (opt_ca o) (opt_passphrase o) (opt_rejectUnauthorized o).
Definition set_key (b : Buffer) (o : tlsOptions) : tlsOptions :=
  mkTlsOptions (opt_cert o) (Some b) (opt_ca o) (opt_passphrase o) (opt_rejectUnauthorized o).
Definition set_ca (b : Buffer) (o : tlsOptions) : tlsOptions :=
  mkTlsOptions (opt_cert o) (opt_key o) (Some b) (opt_passphrase o) (opt_rejectUnauthorized o).
Definition set_passphrase (p : jsstring) (o : tlsOptions) : tlsOptions :=
  mkTlsOptions (opt_cert o) (opt_key o) (opt_ca o) (Some p) (opt_rejectUnauthorized o).
Definition set_rejectUnauthorized (b : bool) (o : tlsOptions) : tlsOptions :=
  mkTlsOptions (opt_cert o) (opt_key o) (opt_ca o) (opt_passphrase o) (Some b).

(** [createTLSAgent()], reading [this.tlsClientCert]. *)
Definition createTLSAgent (fs : filesystem)
    (tlsClientCert : option TLSClientCertConfig) : comp Agent :=
  match tlsClientCert with
  | None => throw (Error (js "Error") (js "TLS client cert config is required"))
  | Some cfg =>
      o <- load_file fs (cert cfg) (js "client certificate") set_cert no_tlsOptions ;;
      o <- load_file fs (key cfg) (js "client key") set_key o ;;
      o <- load_file fs (ca cfg) (js "CA certificate") set_ca o ;;
      o <- (if truthy_opt (passphrase cfg) then
              match passphrase cfg with
              | Some p =>
                  debugLog (js "Using passphrase for encrypted private key") ;;
                  ret (set_passphrase p o)
              | None => ret o
              end
            else ret o) ;;
      o <- match rejectUnauthorized cfg with
           | Some b =>
               let o := set_rejectUnauthorized b o in
               (if negb b then log WARNING_verification_disabled else ret tt) ;;
               debugLog (js "TLS rejectUnauthorized setting") ;;
               ret o
           | None => ret o
           end ;;
      debugLog (js "Creating undici Agent with TLS options") ;;
      emit (NewAgent o) ;;
      ret (mkAgent o)
  end.

End TLSAgent.
Export TLSAgent.

(* ===================================================================== *)
(** * authorization-server-metadata.ts *)
(* ===================================================================== *)

Module Metadata.

(** What [await response.json()] gives: a rejection, [null], or a value that
    the code casts to [AuthorizationServerMetadata] unchecked. *)
Inductive json_outcome :=
| JsonRejects (e : error)
| JsonNull
| JsonValue (m : AuthorizationServerMetadata).

Record Response := mkResponse {
  ok : bool;
  status : Z;
  statusText : jsstring;
  json : json_outcome
}.

(** The outside world of the module: [new URL(s).origin] (or the
    [TypeError] the constructor throws) and what undici's [fetch] settles
    to for a URL and a dispatcher (a rejection covers network errors and
    the 5000 ms abort signal). *)
Record network := mkNetwork {
  URL_origin : jsstring -> result jsstring;
  fetch : jsstring -> option Agent -> result Response
}.

Definition metadataPath : jsstring := js "/.well-known/oauth-authorization-server".

(** [getMetadataUrl(serverUrl)]. *)
Definition getMetadataUrl (net : network) (serverUrl : jsstring) : comp jsstring :=
  origin <- ([], URL_origin net serverUrl) ;;
  ret (origin ++ metadataPath).

(** [await response.json()] followed by the property reads of the
    [debugLog] call, which throw a [TypeError] on [null]. *)
Definition read_metadata (r : Response) : comp AuthorizationServerMetadata :=
  match json r with
  | JsonRejects e => throw e
  | JsonNull =>
      throw (Error (js "TypeError")
                   (js "Cannot read properties of null (reading 'issuer')"))
  | JsonValue m =>
      debugLog (js "Successfully fetched authorization server metadata") ;;
      ret m
  end.

(** [fetchAuthorizationServerMetadata(serverUrl, customAgent)]. *)
Definition fetchAuthorizationServerMetadata (net : network)
    (serverUrl : jsstring) (customAgent : option Agent)
  : comp (option AuthorizationServerMetadata) :=
  metadataUrl <- getMetadataUrl net serverUrl ;;
  debugLog (js "Fetching authorization server metadata") ;;
  try_catch
    (response <- ([FetchRequest metadataUrl customAgent],
                  fetch net metadataUrl customAgent) ;;
     if negb (ok response) then
       (if (status response =? 404)%Z then
          debugLog (js "Authorization server metadata endpoint not found (404)")
        else
          debugLog (js "Failed to fetch authorization server metadata")) ;;
       ret None
     else
       metadata <- read_metadata response ;;
       ret (Some metadata))
    (fun error =>
       debugLog (js "Error fetching authorization server metadata") ;;
       ret None).

End Metadata.
Export Metadata.

(* ===================================================================== *)
(** * The credential store *)
(* ===================================================================== *)

Module Store.

(** Modelled from the spec: the CredentialStore behind [readJsonFile],
    [writeJsonFile], [readTextFile], [writeTextFile] and [deleteConfigFile]
    of [mcp-auth-config], whose source is not available: a namespace per
    ServerIdentity hash exposing read, write and delete of three artifacts
    (client registration, token set, PKCE verifier). *)
Record Namespace := mkNamespace {
  client_info_json : option OAuthClientInformationFull;
  tokens_json : option OAuthTokens;
  code_verifier_txt : option jsstring
}.

Definition empty_namespace : Namespace := mkNamespace None None None.

Definition CredentialStore := jsstring -> Namespace.

Definition update (disk : CredentialStore) (hash : jsstring)
    (f : Namespace -> Namespace) : CredentialStore :=
  fun h => if jsstring_eqb h hash then f (disk h) else disk h.

Definition with_client_info (v : option OAuthClientInformationFull) (n : Namespace) :=
  mkNamespace v (tokens_json n) (code_verifier_txt n).
Definition with_tokens (v : option OAuthTokens) (n : Namespace) :=
  mkNamespace (client_info_json n) v (code_verifier_txt n).
Definition with_code_verifier (v : option jsstring) (n : Namespace) :=
  mkNamespace (client_info_json n) (tokens_json n) v.

(** [readTextFile(hash, 'code_verifier.txt', errorMessage)]: throws
    [errorMessage] when the artifact is absent. *)
Definition readTextFile_verifier (disk : CredentialStore) (hash : jsstring)
    (errorMessage : jsstring) : comp jsstring :=
  match code_verifier_txt (disk hash) with
  | Some v => ret v
  | None => throw (Error (js "Error") errorMessage)
  end.

End Store.
Export Store.

(* ===================================================================== *)
(** * node-oauth-client-provider.ts: class NodeOAuthClientProvider *)
(* ===================================================================== *)

Module Provider.

(** The instance: the [readonly options] parameter property and the private
    fields. *)
Record NodeOAuthClientProvider := mkProvider {
  options : OAuthProviderOptions;
  serverUrlHash : jsstring;
  callbackPath : jsstring;
  clientName : jsstring;
  clientUri : jsstring;
  softwareId : jsstring;
  softwareVersion : jsstring;
  staticOAuthClientMetadata : StaticOAuthClientMetadata;
  staticOAuthClientInfo : StaticOAuthClientInformationFull;
  authorizeResource : option jsstring;
  _state : jsstring;
  _clientInfo : option OAuthClientInformationFull;
  authorizationServerMetadata : option AuthorizationServerMetadata;
  tlsClientCert : option TLSClientCertConfig;
  customAgent : option Agent
}.

(** [this._clientInfo = v]. *)
Definition set__clientInfo (v : option OAuthClientInformationFull)
    (p : NodeOAuthClientProvider) : NodeOAuthClientProvider :=
  mkProvider (options p) (serverUrlHash p) (callbackPath p) (clientName p)
    (clientUri p) (softwareId p) (softwareVersion p)
    (staticOAuthClientMetadata p) (staticOAuthClientInfo p)
    (authorizeResource p) (_state p) v (authorizationServerMetadata p)
    (tlsClientCert p) (customAgent p).

(** [this.authorizationServerMetadata = v]. *)
Definition set_authorizationServerMetadata (v : option AuthorizationServerMetadata)
    (p : NodeOAuthClientProvider) : NodeOAuthClientProvider :=
  mkProvider (options p) (serverUrlHash p) (callbackPath p) (clientName p)
    (clientUri p) (softwareId p) (softwareVersion p)
    (staticOAuthClientMetadata p) (staticOAuthClientInfo p)
    (authorizeResource p) (_state p) (_clientInfo p) v
    (tlsClientCert p) (customAgent p).

(** [authProvider.options.authorizationServerMetadata = v], the assignment
    [runProxy] makes from outside: it reaches the options object only. *)
Definition set_options_authorizationServerMetadata
    (v : option AuthorizationServerMetadata)
    (p : NodeOAuthClientProvider) : NodeOAuthClientProvider :=
  let o := options p in
  mkProvider
    (mkOAuthProviderOptions (Types.serverUrl o) (Types.callbackPort o)
       (Types.host o) (Types.callbackPath o) (Types.clientName o)
       (Types.clientUri o) (Types.softwareId o) (Types.softwareVersion o)
       (Types.staticOAuthClientMetadata o) (Types.staticOAuthClientInfo o)
       (Types.authorizeResource o) (Types.serverUrlHash o) v
       (Types.tlsClientCert o))
    (serverUrlHash p) (callbackPath p) (clientName p)
    (clientUri p) (softwareId p) (softwareVersion p)
    (staticOAuthClientMetadata p) (staticOAuthClientInfo p)
    (authorizeResource p) (_state p) (_clientInfo p)
    (authorizationServerMetadata p) (tlsClientCert p) (customAgent p).

(** [new NodeOAuthClientProvider(options)]. [MCP_REMOTE_VERSION] is the
    constant of [utils]; [uuid] is what [randomUUID()] returns. *)
Definition constructor (fs : filesystem) (MCP_REMOTE_VERSION uuid : jsstring)
    (options : OAuthProviderOptions) : comp NodeOAuthClientProvider :=
  agent <- match Types.tlsClientCert options with
           | Some _ =>
               debugLog (js "Creating custom TLS agent with client certificate") ;;
               a <- createTLSAgent fs (Types.tlsClientCert options) ;;
               ret (Some a)
           | None => ret None
           end ;;
  ret (mkProvider options
         (Types.serverUrlHash options)
         (or_default (Types.callbackPath options) (js "/oauth/callback"))
         (or_default (Types.clientName options) (js "MCP CLI Client"))
         (or_default (Types.clientUri options)
            (js "https://github.com/modelcontextprotocol/mcp-cli"))
         (or_default (Types.softwareId options)
            (js "2e6dc280-f3c3-4e01-99a7-8181dbd1d23d"))
         (or_default (Types.softwareVersion options) MCP_REMOTE_VERSION)
         (Types.staticOAuthClientMetadata options)
         (Types.staticOAuthClientInfo options)
         (Types.authorizeResource options)
         uuid
         None
         (Types.authorizationServerMetadata options)
         (Types.tlsClientCert options)
         agent).

(** [get redirectUrl()]. *)
Definition redirectUrl (p : NodeOAuthClientProvider) : jsstring :=
  js "http://" ++ Types.host (options p) ++ js ":"
    ++ of_N (Types.callbackPort (options p)) ++ callbackPath p.

(** [state()]. *)
Definition state (p : NodeOAuthClientProvider) : jsstring := _state p.

(** [getCustomAgent()]. *)
Definition getCustomAgent (p : NodeOAuthClientProvider) : option Agent :=
  customAgent p.

(** [s && s.trim().length > 0] on an optional string. *)
Definition nonblank (o : option jsstring) : bool :=
  match o with
  | Some s => truthy s && (0 <? List.length (trim s))
  | None => false
  end.

(** The string read from a property just tested to be one. *)
Definition string_of (o : option jsstring) : jsstring :=
  match o with Some s => s | None => [] end.

(** [m?.scopes_supported], an absent array read as the empty one: the code
    only tests its [length] for truthiness before using it. *)
Definition supported_scopes (m : option AuthorizationServerMetadata) : list jsstring :=
  match m with
  | Some md => match scopes_supported md with Some l => l | None => [] end
  | None => []
  end.

Definition DEFAULT_SCOPE : jsstring := js "openid email profile".

(** [getEffectiveScope()]. *)
Definition getEffectiveScope (p : NodeOAuthClientProvider) : comp jsstring :=
  (* Priority 1: user-provided scope from staticOAuthClientMetadata *)
  if nonblank (scope_of (staticOAuthClientMetadata p)) then
    ret (string_of (scope_of (staticOAuthClientMetadata p)))
  (* Priority 2: scope from client registration response *)
  else if nonblank (scope_of (_clientInfo p)) then
    ret (string_of (scope_of (_clientInfo p)))
  (* Priority 3: the server's supported scopes *)
  else if (0 <? List.length (supported_scopes (authorizationServerMetadata p))) then
    debugLog (js "authorizationServerMetadata.scopes_supported: ") ;;
    ret (join (js " ") (supported_scopes (authorizationServerMetadata p)))
  (* Priority 4: hardcoded default *)
  else ret DEFAULT_SCOPE.

(** [get clientMetadata()]. *)
Definition clientMetadata (p : NodeOAuthClientProvider) : comp jsobject :=
  effectiveScope <- getEffectiveScope p ;;
  ret (obj_set "scope" (VString effectiveScope)
         (obj_spread
            [ ("redirect_uris", VStrings [redirectUrl p]);
              ("token_endpoint_auth_method", VString (js "none"));
              ("grant_types", VStrings [js "authorization_code"; js "refresh_token"]);
              ("response_types", VStrings [js "code"]);
              ("client_name", VString (clientName p));
              ("client_uri", VString (clientUri p));
              ("software_id", VString (softwareId p));
              ("software_version", VString (softwareVersion p)) ]%string
            (match staticOAuthClientMetadata p with
             | Some props => props
             | None => []
             end))).

(** [getAuthorizationServerMetadata()]. *)
Definition getAuthorizationServerMetadata (net : network)
    (p : NodeOAuthClientProvider)
  : comp (option AuthorizationServerMetadata * NodeOAuthClientProvider) :=
  debugLog (js "authorizationServerMetadata: ") ;;
  match authorizationServerMetadata p with
  | Some m => ret (Some m, p)
  | None =>
      try_catch
        (fetched <- fetchAuthorizationServerMetadata net
                      (Types.serverUrl (options p)) (customAgent p) ;;
         let p' := set_authorizationServerMetadata fetched p in
         (match fetched with
          | Some m =>
              match scopes_supported m with
              | Some _ => debugLog (js "Authorization server supports scopes")
              | None => ret tt
              end
          | None => ret tt
          end) ;;
         ret (fetched, p'))
        (fun error =>
           debugLog (js "Failed to fetch authorization server metadata") ;;
           ret (None, p))
  end.

(** [clientInformation()]. *)
Definition clientInformation (disk : CredentialStore)
    (p : NodeOAuthClientProvider)
  : comp (option OAuthClientInformationFull * NodeOAuthClientProvider) :=
  debugLog (js "Reading client info") ;;
  match staticOAuthClientInfo p with
  | Some info =>
      debugLog (js "Returning static client info") ;;
      ret (Some info, set__clientInfo (Some info) p)
  | None =>
      let clientInfo := client_info_json (disk (serverUrlHash p)) in
      let p' := match clientInfo with
                | Some _ => set__clientInfo clientInfo p
                | None => p
                end in
      debugLog (js "Client info result:") ;;
      ret (clientInfo, p')
  end.

(** [saveClientInformation(clientInformation)]. *)
Definition saveClientInformation (clientInformation : OAuthClientInformationFull)
    (disk : CredentialStore) (p : NodeOAuthClientProvider)
  : comp (CredentialStore * NodeOAuthClientProvider) :=
  debugLog (js "Saving client info") ;;
  ret (update disk (serverUrlHash p) (with_client_info (Some clientInformation)),
       set__clientInfo (Some clientInformation) p).

(** [tokens()]. *)
Definition tokens (disk : CredentialStore) (p : NodeOAuthClientProvider)
  : comp (option OAuthTokens) :=
  debugLog (js "Reading OAuth tokens") ;;
  debugLog (js "Token request stack trace:") ;;
  let tokens := tokens_json (disk (serverUrlHash p)) in
  match tokens with
  | Some t =>
      (match expires_in t with
       | Some n =>
           if (n <? 0)%Z then
             debugLog (js "WARNING: Invalid expires_in detected while reading tokens")
           else ret tt
       | None =>
           debugLog (js "WARNING: Invalid expires_in detected while reading tokens")
       end) ;;
      debugLog (js "Token result:") ;;
      ret tokens
  | None =>
      debugLog (js "Token result: Not found") ;;
      ret tokens
  end.

(** [saveTokens(tokens)]. *)
Definition saveTokens (t : OAuthTokens) (disk : CredentialStore)
    (p : NodeOAuthClientProvider) : comp CredentialStore :=
  (match expires_in t with
   | Some n =>
       if (n <? 0)%Z then
         debugLog (js "WARNING: Invalid expires_in detected in tokens")
       else ret tt
   | None => debugLog (js "WARNING: Invalid expires_in detected in tokens")
   end) ;;
  debugLog (js "Saving tokens") ;;
  ret (update disk (serverUrlHash p) (with_tokens (Some t))).

(** [saveCodeVerifier(codeVerifier)]. *)
Definition saveCodeVerifier (codeVerifier : jsstring) (disk : CredentialStore)
    (p : NodeOAuthClientProvider) : comp CredentialStore :=
  debugLog (js "Saving code verifier") ;;
  ret (update disk (serverUrlHash p) (with_code_verifier (Some codeVerifier))).

(** [codeVerifier()]. *)
Definition codeVerifier (disk : CredentialStore) (p : NodeOAuthClientProvider)
  : comp jsstring :=
  debugLog (js "Reading code verifier") ;;
  verifier <- readTextFile_verifier disk (serverUrlHash p)
                (js "No code verifier saved for session") ;;
  debugLog (js "Code verifier found:") ;;
  ret verifier.

(** The argument type of [invalidateCredentials]. *)
Inductive credential_scope := all | client | tokens_only | verifier.

(** [invalidateCredentials(scope)]; the [default] branch of the switch is
    outside the argument type. *)
Definition invalidateCredentials (scope : credential_scope)
    (disk : CredentialStore) (p : NodeOAuthClientProvider)
  : comp (CredentialStore * NodeOAuthClientProvider) :=
  debugLog (js "Invalidating credentials: ") ;;
  match scope with
  | all =>
      debugLog (js "All credentials invalidated") ;;
      ret (update disk (serverUrlHash p) (fun _ => empty_namespace),
           set__clientInfo None p)
  | client =>
      debugLog (js "Client information invalidated") ;;
      ret (update disk (serverUrlHash p) (with_client_info None),
           set__clientInfo None p)
  | tokens_only =>
      debugLog (js "OAuth tokens invalidated") ;;
      ret (update disk (serverUrlHash p) (with_tokens None), p)
  | verifier =>
      debugLog (js "Code verifier invalidated") ;;
      ret (update disk (serverUrlHash p) (with_code_verifier None), p)
  end.

(** A [URL] object: what is needed of it is its query, as the ordered
    list behind [searchParams]; the rest of the URL is kept as given. *)
Record URL := mkURL {
  href_base : jsstring;
  searchParams : list (jsstring * jsstring)
}.

Definition searchParams_get (name : jsstring) (u : URL) : option jsstring :=
  match find (fun kv => jsstring_eqb (fst kv) name) (searchParams u) with
  | Some kv => Some (snd kv)
  | None => None
  end.

(** [URLSearchParams.prototype.set]: the first pair of that name takes the
    value and the others are removed; without one the pair is appended. *)
Fixpoint params_set (name value : jsstring) (l : list (jsstring * jsstring))
  : list (jsstring * jsstring) :=
  match l with
  | [] => [(name, value)]
  | (k, v) :: r =>
      if jsstring_eqb k name
      then (k, value) :: filter (fun kv => negb (jsstring_eqb (fst kv) name)) r
      else (k, v) :: params_set name value r
  end.

Definition searchParams_set (name value : jsstring) (u : URL) : URL :=
  mkURL (href_base u) (params_set name value (searchParams u)).

(** What the method needs from outside: the serialisation of a URL, the
    [sanitizeUrl] of strict-url-sanitise and the [open] package, each of
    the last two with the error it may throw. *)
Record platform := mkPlatform {
  URL_toString : URL -> jsstring;
  sanitizeUrl : jsstring -> result jsstring;
  open : jsstring -> result unit
}.

(** What [this.getAuthorizationServerMetadata()] does before its first
    suspension: the promise that [redirectToAuthorization] starts without
    awaiting it. What it does once the fetch settles, the assignment of
    [this.authorizationServerMetadata] included, happens later and is the
    rest of a call of [getAuthorizationServerMetadata]. *)
Definition getAuthorizationServerMetadata_started (net : network)
    (p : NodeOAuthClientProvider) : trace :=
  DebugLog (js "authorizationServerMetadata: ") ::
  match authorizationServerMetadata p with
  | Some _ => []
  | None =>
      match URL_origin net (Types.serverUrl (options p)) with
      | Ok origin =>
          [DebugLog (js "Fetching authorization server metadata");
           FetchRequest (origin ++ metadataPath) (customAgent p)]
      | Throw _ => []
      end
  end.

(** [redirectToAuthorization(authorizationUrl)]; the result is the URL
    object as the method leaves it. The promise of
    [getAuthorizationServerMetadata()] is started first, not awaited, and
    its rejection is swallowed by [.catch(() => {})]. *)
Definition redirectToAuthorization (net : network) (plat : platform)
    (p : NodeOAuthClientProvider) (authorizationUrl : URL) : comp URL :=
  (getAuthorizationServerMetadata_started net p, Ok tt) ;;
  let authorizationUrl :=
    match authorizeResource p with
    | Some r =>
        if truthy r then searchParams_set (js "resource") r authorizationUrl
        else authorizationUrl
    | None => authorizationUrl
    end in
  effectiveScope <- getEffectiveScope p ;;
  let authorizationUrl := searchParams_set (js "scope") effectiveScope authorizationUrl in
  debugLog (js "Added scope parameter to authorization URL") ;;
  log ([10%N] ++ js "Please authorize this client by visiting:" ++ [10%N]
         ++ URL_toString plat authorizationUrl ++ [10%N]) ;;
  debugLog (js "Redirecting to authorization URL") ;;
  try_catch
    (target <- ([], sanitizeUrl plat (URL_toString plat authorizationUrl)) ;;
     ([Open target], open plat target) ;;
     log (js "Browser opened automatically."))
    (fun error =>
       log (js "Could not open browser automatically. Please copy and paste the URL above into your browser.") ;;
       debugLog (js "Failed to open browser")) ;;
  ret authorizationUrl.

End Provider.
Export Provider.

(** ** Calls on a provider instance *)

Module Calls.

(** A call of a public member of the class, with what the caller passes. *)
Inductive method :=
| m_redirectUrl
| m_clientMetadata
| m_state
| m_getCustomAgent
| m_getAuthorizationServerMetadata
| m_clientInformation
| m_saveClientInformation (clientInformation : OAuthClientInformationFull)
| m_tokens
| m_saveTokens (t : OAuthTokens)
| m_redirectToAuthorization (authorizationUrl : URL)
| m_saveCodeVerifier (codeVerifier : jsstring)
| m_codeVerifier
| m_invalidateCredentials (scope : credential_scope)
| m_set_options_metadata (v : option AuthorizationServerMetadata).

(** What a call hands back. *)
Inductive returned :=
| r_void
| r_string (s : jsstring)
| r_object (o : jsobject)
| r_agent (a : option Agent)
| r_metadata (m : option AuthorizationServerMetadata)
| r_clientInfo (c : option OAuthClientInformationFull)
| r_tokens (t : option OAuthTokens)
| r_url (u : URL).

(** The instance together with the store on disk. *)
Definition world : Type := NodeOAuthClientProvider * CredentialStore.

(** The result and the state after a member has run: a member that throws
    does so before any assignment, and leaves the state as it was. *)
Definition after {A} (w : world) (m : comp A) (f : A -> returned * world)
  : trace * (result returned * world) :=
  match m with
  | (t, Ok a) => (t, (Ok (fst (f a)), snd (f a)))
  | (t, Throw e) => (t, (Throw e, w))
  end.

(** One call: its effects, its result and the state afterwards. *)
Definition invoke (net : network) (plat : platform) (c : method) (w : world)
  : trace * (result returned * world) :=
  let (p, disk) := w in
  match c with
  | m_redirectUrl => ([], (Ok (r_string (redirectUrl p)), w))
  | m_clientMetadata =>
      after w (clientMetadata p) (fun o => (r_object o, w))
  | m_state => ([], (Ok (r_string (state p)), w))
  | m_getCustomAgent => ([], (Ok (r_agent (getCustomAgent p)), w))
  | m_getAuthorizationServerMetadata =>
      after w (getAuthorizationServerMetadata net p)
        (fun x => (r_metadata (fst x), (snd x, disk)))
  | m_clientInformation =>
      after w (clientInformation disk p)
        (fun x => (r_clientInfo (fst x), (snd x, disk)))
  | m_saveClientInformation ci =>
      after w (saveClientInformation ci disk p)
        (fun x => (r_void, (snd x, fst x)))
  | m_tokens => after w (tokens disk p) (fun t => (r_tokens t, w))
  | m_saveTokens t =>
      after w (saveTokens t disk p) (fun d => (r_void, (p, d)))
  | m_redirectToAuthorization u =>
      after w (redirectToAuthorization net plat p u) (fun u' => (r_url u', w))
  | m_saveCodeVerifier v =>
      after w (saveCodeVerifier v disk p) (fun d => (r_void, (p, d)))
  | m_codeVerifier => after w (codeVerifier disk p) (fun s => (r_string s, w))
  | m_invalidateCredentials s =>
      after w (invalidateCredentials s disk p)
        (fun x => (r_void, (snd x, fst x)))
  | m_set_options_metadata v =>
      ([], (Ok r_void, (set_options_authorizationServerMetadata v p, disk)))
  end.

(** A sequence of calls, one after the other, whatever each returns. *)
Fixpoint run (net : network) (plat : platform) (cs : list method) (w : world)
  : trace * world :=
  match cs with
  | [] => ([], w)
  | c :: rest =>
      let '(t, (_, w')) := invoke net plat c w in
      let '(t', w'') := run net plat rest w' in
      (t ++ t', w'')
  end.

(** How many agents a trace constructs. *)
Fixpoint agents_built (t : trace) : nat :=
  match t with
  | [] => 0
  | NewAgent _ :: r => S (agents_built r)
  | _ :: r => agents_built r
  end.

(** How many times a trace logs a given message. *)
Fixpoint times_logged (msg : jsstring) (t : trace) : nat :=
  match t with
  | [] => 0
  | Log m :: r => (if jsstring_eqb m msg then 1 else 0) + times_logged msg r
  | _ :: r => times_logged msg r
  end.

(** The files a trace reads, in order. *)
Fixpoint files_read (t : trace) : list jsstring :=
  match t with
  | [] => []
  | ReadFileSync path :: r => path :: files_read r
  | _ :: r => files_read r
  end.

End Calls.
Export Calls.

(* ===================================================================== *)
(** * proxy.ts *)
(* ===================================================================== *)

Module Proxy.





(** A [RequestInit]: the dispatcher, and everything else. *)
Record RequestInit := mkRequestInit {
  dispatcher : option Agent;
  other_init : jsobject
}.

(** The function [runProxy] installs as [globalThis.fetch] when there is a
    custom agent: [undiciFetch(input, { ...init, dispatcher: customAgent })]. *)
Definition fetch_override {R : Type} (undiciFetch : jsstring -> RequestInit -> R)
    (customAgent : Agent) (input : jsstring) (init : option RequestInit) : R :=
  undiciFetch input
    (mkRequestInit (Some customAgent)
       (match init with Some i => other_init i | None => [] end)).

(** [runProxy] up to the assignment of the fetched metadata: the provider,
    the agent taken from it, and whether [globalThis.fetch] was replaced. *)
Definition runProxy_setup (fs : filesystem) (net : network)
    (MCP_REMOTE_VERSION uuid : jsstring)
    (serverUrl : jsstring) (callbackPort : N) (host : jsstring)
    (staticOAuthClientMetadata : StaticOAuthClientMetadata)
    (staticOAuthClientInfo : StaticOAuthClientInformationFull)
    (authorizeResource : option jsstring) (serverUrlHash : jsstring)
    (tlsClientCert : option TLSClientCertConfig)
  : comp (NodeOAuthClientProvider * option Agent * bool) :=
  authProvider <- constructor fs MCP_REMOTE_VERSION uuid
      (mkOAuthProviderOptions serverUrl callbackPort host None
         (Some (js "MCP CLI Proxy")) None None None
         staticOAuthClientMetadata staticOAuthClientInfo authorizeResource
         serverUrlHash None tlsClientCert) ;;
  let customAgent := getCustomAgent authProvider in
  overridden <- match customAgent with
                | Some _ =>
                    debugLog (js "Overrode global fetch to use undici with TLS agent") ;;
                    ret true
                | None => ret false
                end ;;
  authorizationServerMetadata <-
    try_catch
      (m <- fetchAuthorizationServerMetadata net serverUrl customAgent ;;
       (match m with
        | Some md =>
            match scopes_supported md with
            | Some _ => debugLog (js "Pre-fetched authorization server metadata")
            | None => ret tt
            end
        | None => ret tt
        end) ;;
       ret m)
      (fun error =>
         debugLog (js "Failed to pre-fetch authorization server metadata") ;;
         ret None) ;;
  ret (set_options_authorizationServerMetadata authorizationServerMetadata authProvider,
       customAgent, overridden).

End Proxy.
Export Proxy.

(* ===================================================================== *)
(** * coordination.ts: the authorization coordinator *)
(* ===================================================================== *)

Module Coordination.

Definition pid := nat.
Definition time := nat.

(** Modelled from the spec: the AuthorizationLock of [coordination.ts],
    whose source is not available: a cross-process mutex for one
    ServerIdentity and callback port, held through a lease (holder id and
    expiry), never a plain boolean. *)
Record Lease := mkLease { holder : pid; expiry : time }.

(** Modelled from the spec: the tagged lock state of the design notes,
    [{Unlocked, HeldByOther(leaseExpiry), HeldBySelf}], as an instance sees
    the lease file ([coordination.ts] is not available); an expired lease
    is reclaimable, so it reads as [Unlocked]. *)
Inductive LockState :=
| Unlocked
| HeldByOther (leaseExpiry : time)
| HeldBySelf.

Definition lock_state (now : time) (self : pid) (l : option Lease) : LockState :=
  match l with
  | None => Unlocked
  | Some le =>
      if expiry le <? now then Unlocked
      else if holder le =? self then HeldBySelf
      else HeldByOther (expiry le)
  end.

(** Modelled from the spec: the TokenSet of the data model
    ([coordination.ts] and the store are not available); validity is derived
    from [expiresIn] and [obtainedAt]. *)
Record TokenSet := mkTokenSet {
  accessToken : jsstring;
  expiresIn : nat;
  obtainedAt : time
}.

Definition non_expired (now : time) (t : option TokenSet) : bool :=
  match t with
  | Some ts => now <? obtainedAt ts + expiresIn ts
  | None => false
  end.

(** Where an instance stands in [initializeAuth]. *)
Inductive Role :=
| NotStarted
| ReturnedCached
| Leader
| Follower (deadline : time)
| Succeeded
| Failed
| Crashed.

Definition is_Leader (r : Role) : bool :=
  match r with Leader => true | _ => false end.

Definition is_Follower (r : Role) : bool :=
  match r with Follower _ => true | _ => false end.

(** What the instances do that others can see. *)
Inductive Effect :=
| AcquireLock (i : pid)
| BindListener (i : pid)
| LaunchBrowser (i : pid)
| PollStore (i : pid)
| ReleaseLock (i : pid).

(** The instances and what they share: the clock, the lease and the token
    set of one ServerIdentity. *)
Record System := mkSystem {
  now : time;
  lock : option Lease;
  tokenSet : option TokenSet;
  role : pid -> Role;
  effects : list Effect
}.

Definition set_role (i : pid) (r : Role) (f : pid -> Role) : pid -> Role :=
  fun j => if j =? i then r else f j.

(** The lock after its holder [i] lets go of it. *)
Definition release (i : pid) (l : option Lease) : option Lease :=
  match l with
  | Some le => if holder le =? i then None else l
  | None => None
  end.

(** The atomic steps of the instances, interleaved in any order. *)
Inductive Action :=
| Call (i : pid) (timeout : time)
| Complete (i : pid) (expiresIn : nat)
| Fail (i : pid)
| Crash (i : pid)
| Poll (i : pid)
| Tick.

(** Modelled from the spec: [initializeAuth] of [coordination.ts], whose
    source is not available, as the steps of section 4.1.
    - [Call]: step 1 returns a non-expired cached TokenSet at once; step 2
      tries the lock, the instance that gets it is the leader (it binds the
      listener and launches the browser), any other is a follower.
    - [Complete]: the leader persists the TokenSet and releases the lock.
    - [Fail]: a leader that times out, meets a state mismatch or cannot
      bind releases the lock and fails.
    - [Crash]: an instance dies; its lease stays until it expires.
    - [Poll]: a follower reads the store; it succeeds on a TokenSet and
      fails once its deadline has passed.
    - [Tick]: time passes; by step 3 a live leader does not outlive its
      lease, so the clock does not pass the expiry of a lease whose holder
      is still leading.
    A step that is not enabled gives [None]. *)
Definition step (a : Action) (s : System) : option System :=
  match a with
  | Call i timeout =>
      match role s i with
      | NotStarted =>
          if non_expired (now s) (tokenSet s) then
            Some (mkSystem (now s) (lock s) (tokenSet s)
                    (set_role i ReturnedCached (role s)) (effects s))
          else
            match lock_state (now s) i (lock s) with
            | Unlocked =>
                Some (mkSystem (now s)
                        (Some (mkLease i (now s + timeout))) (tokenSet s)
                        (set_role i Leader (role s))
                        (effects s ++ [AcquireLock i; BindListener i; LaunchBrowser i]))
            | HeldByOther _ | HeldBySelf =>
                Some (mkSystem (now s) (lock s) (tokenSet s)
                        (set_role i (Follower (now s + timeout)) (role s))
                        (effects s))
            end
      | _ => None
      end
  | Complete i lifetime =>
      match role s i with
      | Leader =>
          Some (mkSystem (now s) (release i (lock s))
                  (Some (mkTokenSet [] lifetime (now s)))
                  (set_role i Succeeded (role s))
                  (effects s ++ [ReleaseLock i]))
      | _ => None
      end
  | Fail i =>
      match role s i with
      | Leader =>
          Some (mkSystem (now s) (release i (lock s)) (tokenSet s)
                  (set_role i Failed (role s))
                  (effects s ++ [ReleaseLock i]))
      | _ => None
      end
  | Crash i =>
      Some (mkSystem (now s) (lock s) (tokenSet s)
              (set_role i Crashed (role s)) (effects s))
  | Poll i =>
      match role s i with
      | Follower deadline =>
          if non_expired (now s) (tokenSet s) then
            Some (mkSystem (now s) (lock s) (tokenSet s)
                    (set_role i Succeeded (role s))
                    (effects s ++ [PollStore i]))
          else if deadline <=? now s then
            Some (mkSystem (now s) (lock s) (tokenSet s)
                    (set_role i Failed (role s))
                    (effects s ++ [PollStore i]))
          else
            Some (mkSystem (now s) (lock s) (tokenSet s) (role s)
                    (effects s ++ [PollStore i]))
      | _ => None
      end
  | Tick =>
      match lock s with
      | Some le =>
          if is_Leader (role s (holder le)) && (expiry le <=? now s)
          then None
          else Some (mkSystem (S (now s)) (lock s) (tokenSet s) (role s) (effects s))
      | None =>
          Some (mkSystem (S (now s)) (lock s) (tokenSet s) (role s) (effects s))
      end
  end.

(** A schedule, step by step; [None] when a step is not enabled. *)
Fixpoint exec (sched : list Action) (s : System) : option System :=
  match sched with
  | [] => Some s
  | a :: rest =>
      match step a s with
      | Some s' => exec rest s'
      | None => None
      end
  end.

(** Every instance about to call [initializeAuth], nothing locked, and the
    store as found. *)
Definition initial (t0 : time) (stored : option TokenSet) : System :=
  mkSystem t0 None stored (fun _ => NotStarted) [].

Definition reachable (s : System) : Prop :=
  exists t0 stored sched, exec sched (initial t0 stored) = Some s.

Definition leaders (among : list pid) (s : System) : list pid :=
  filter (fun i => is_Leader (role s i)) among.

Definition followers (among : list pid) (s : System) : list pid :=
  filter (fun i => is_Follower (role s i)) among.

Fixpoint count_effect (f : Effect -> bool) (l : list Effect) : nat :=
  match l with
  | [] => 0
  | e :: r => (if f e then 1 else 0) + count_effect f r
  end.

Definition is_AcquireLock (e : Effect) : bool :=
  match e with AcquireLock _ => true | _ => false end.
Definition is_BindListener (e : Effect) : bool :=
  match e with BindListener _ => true | _ => false end.
Definition is_LaunchBrowser (e : Effect) : bool :=
  match e with LaunchBrowser _ => true | _ => false end.





End Coordination.
Export Coordination.

(* ===================================================================== *)
(** * utils.ts: connectToRemoteServer *)
(* ===================================================================== *)

Module Transport.

(** The [TransportStrategy] of [utils]. *)
Inductive TransportStrategy := http_first | sse_first | http_only | sse_only.

Inductive TransportKind := StreamableHTTP | EventStream.

(** What an attempt to open a transport meets. *)
Inductive Signal :=
| Accepted
| RejectionStatus (status : Z)
| NegotiationFailure
| OtherFailure (e : error).

(** The remote: what the [n]-th attempt of the run meets, for its kind. *)
Definition Remote := nat -> TransportKind -> Signal.

Record TransportSession := mkTransportSession {
  session_kind : TransportKind;
  session_dispatcher : option Agent
}.

Inductive Reason := REASON_TRANSPORT_FALLBACK.

Definition has_reason (r : Reason) (rs : list Reason) : bool :=
  existsb (fun x => match x, r with
                    | REASON_TRANSPORT_FALLBACK, REASON_TRANSPORT_FALLBACK => true
                    end) rs.

Definition TransportNegotiationError : error :=
  Error (js "TransportNegotiationError") (js "Already attempted transport fallback. Giving up.").

Definition uses_sse (strategy : TransportStrategy) : bool :=
  match strategy with sse_only | sse_first => true | _ => false end.

Definition shouldAttemptFallback (strategy : TransportStrategy) : bool :=
  match strategy with http_first | sse_first => true | _ => false end.

(** Modelled from the spec: [connectToRemoteServer] of [utils.ts], whose
    source is not available (its callers and its signature, with the
    [recursionReasons] set and the recursive call, are): [http-first] tries
    the streaming-HTTP transport and falls back once to the event-stream
    transport on a negative signal (rejection status or negotiation
    failure), [sse-first] reverses the order, a restricted strategy
    disables fallback. The result lists the kinds attempted, in order, with
    the session or the error; [attempt] counts the attempts made so far,
    and [None] is a run that needs more than [fuel] calls. *)
Fixpoint connectToRemoteServer (fuel : nat) (remote : Remote) (attempt : nat)
    (transportStrategy : TransportStrategy) (recursionReasons : list Reason)
    (customAgent : option Agent)
  : option (list TransportKind * result TransportSession) :=
  match fuel with
  | O => None
  | S fuel' =>
      let sseTransport := uses_sse transportStrategy in
      let kind := if sseTransport then EventStream else StreamableHTTP in
      match remote attempt kind with
      | Accepted => Some ([kind], Ok (mkTransportSession kind customAgent))
      | RejectionStatus _ | NegotiationFailure =>
          if shouldAttemptFallback transportStrategy then
            if has_reason REASON_TRANSPORT_FALLBACK recursionReasons then
              Some ([kind], Throw TransportNegotiationError)
            else
              match connectToRemoteServer fuel' remote (S attempt)
                      (if sseTransport then http_only else sse_only)
                      (REASON_TRANSPORT_FALLBACK :: recursionReasons)
                      customAgent with
              | Some (tried, r) => Some (kind :: tried, r)
              | None => None
              end
          else Some ([kind], Throw TransportNegotiationError)
      | OtherFailure e => Some ([kind], Throw e)
      end
  end.

(** How a single attempt of a kind ends when nothing follows it. *)
Definition final_attempt (remote : Remote) (attempt : nat) (kind : TransportKind)
    (customAgent : option Agent) : result TransportSession :=
  match remote attempt kind with
  | Accepted => Ok (mkTransportSession kind customAgent)
  | RejectionStatus _ | NegotiationFailure => Throw TransportNegotiationError
  | OtherFailure e => Throw e
  end.

Definition kind_eqb (a b : TransportKind) : bool :=
  match a, b with
  | StreamableHTTP, StreamableHTTP | EventStream, EventStream => true
  | _, _ => false
  end.

Definition attempts_of (k : TransportKind) (tried : list TransportKind) : nat :=
  List.length (filter (kind_eqb k) tried).

Definition negative (s : Signal) : bool :=
  match s with RejectionStatus _ | NegotiationFailure => true | _ => false end.

End Transport.
Export Transport.

(* ===================================================================== *)
(** * utils.ts: mcpProxy *)
(* ===================================================================== *)

Module Relay.










End Relay.
Export Relay.

(* ===================================================================== *)
(** * Notions used to state the properties *)
(* ===================================================================== *)

Module Properties.

(** The path a configuration field refers to: a field that is absent or
    empty refers to no file. *)
Definition referenced_path (field : option jsstring) : option jsstring :=
  match field with
  | Some path => if truthy path then Some path else None
  | None => None
  end.

Definition opt_to_list {A} (o : option A) : list A :=
  match o with Some a => [a] | None => [] end.

(** The files a TLS configuration refers to, in the order they are loaded. *)
Definition referenced (cfg : TLSClientCertConfig) : list jsstring :=
  opt_to_list (referenced_path (cert cfg))
    ++ opt_to_list (referenced_path (key cfg))
    ++ opt_to_list (referenced_path (ca cfg)).

(** The contents of the file a field refers to. *)
Definition contents (fs : filesystem) (field : option jsstring) : option Buffer :=
  match referenced_path field with
  | Some path => match fs path with Ok b => Some b | Throw _ => None end
  | None => None
  end.

(** The complete identity of a configuration: every referenced file loaded,
    the passphrase and the verification policy as configured. *)
Definition complete_identity (fs : filesystem) (cfg : TLSClientCertConfig) : Agent :=
  mkAgent (mkTlsOptions (contents fs (cert cfg)) (contents fs (key cfg))
             (contents fs (ca cfg)) (referenced_path (passphrase cfg))
             (rejectUnauthorized cfg)).

(** The error of the first file of the list that cannot be read. *)
Fixpoint first_unreadable (fs : filesystem) (paths : list jsstring) : option error :=
  match paths with
  | [] => None
  | p :: r => match fs p with
              | Throw e => Some e
              | Ok _ => first_unreadable fs r
              end
  end.

(** A string with a character that is not white space. *)
Definition non_whitespace (s : jsstring) : Prop :=
  exists c, In c s /\ is_ws c = false.

(** An optional scope that is absent or has only white space. *)
Definition blank (o : option jsstring) : Prop :=
  forall s, o = Some s -> ~ non_whitespace s.

(** The [scopes_supported] of the metadata the instance holds. *)
Definition server_scopes (p : NodeOAuthClientProvider) : option (list jsstring) :=
  match authorizationServerMetadata p with
  | Some m => scopes_supported m
  | None => None
  end.

(** [e1] occurs in the trace and [e2] does not occur before it. *)
Definition precedes (e1 e2 : event) (t : trace) : Prop :=
  exists before after, t = before ++ e1 :: after /\ ~ In e2 before.

(** A computation that constructs no agent. *)
Definition quiet {A} (m : comp A) : Prop := agents_built (events m) = 0.

(** A computation whose resulting instance has the agent of [p]. *)
Definition keeps_agent {A} (p : NodeOAuthClientProvider)
    (proj : A -> NodeOAuthClientProvider) (m : comp A) : Prop :=
  forall x, outcome m = Ok x -> customAgent (proj x) = customAgent p.

(** The message that shows the authorization URL to the user. *)
Definition prompt (href : jsstring) : jsstring :=
  [10%N] ++ js "Please authorize this client by visiting:" ++ [10%N]
    ++ href ++ [10%N].

Definition COULD_NOT_OPEN : jsstring :=
  js "Could not open browser automatically. Please copy and paste the URL above into your browser.".

(** What is seen of the attempt to open the browser on [href]. *)
Definition launch (plat : platform) (href : jsstring) : trace :=
  match sanitizeUrl plat href with
  | Ok target =>
      Open target ::
      match open plat target with
      | Ok _ => [Log (js "Browser opened automatically.")]
      | Throw _ => [Log COULD_NOT_OPEN; DebugLog (js "Failed to open browser")]
      end
  | Throw _ => [Log COULD_NOT_OPEN; DebugLog (js "Failed to open browser")]
  end.

(** The browser could not be opened on [href]. *)
Definition launch_fails (plat : platform) (href : jsstring) : Prop :=
  match sanitizeUrl plat href with
  | Ok target => is_Ok (open plat target) = false
  | Throw _ => True
  end.

(** The URL as [redirectToAuthorization] completes it for [scope]. *)
Definition completed_url (p : NodeOAuthClientProvider) (scope : jsstring)
    (authorizationUrl : URL) : URL :=
  searchParams_set (js "scope") scope
    (match referenced_path (authorizeResource p) with
     | Some r => searchParams_set (js "resource") r authorizationUrl
     | None => authorizationUrl
     end).



(** What [fetchAuthorizationServerMetadata] returns once the metadata URL
    is known: the parsed metadata when the response is ok and its body
    parses to a value, [undefined] in every other case. *)
Definition metadata_of (net : network) (metadataUrl : jsstring)
    (customAgent : option Agent) : option AuthorizationServerMetadata :=
  match fetch net metadataUrl customAgent with
  | Ok response =>
      if ok response then
        match json response with
        | JsonValue m => Some m
        | JsonNull | JsonRejects _ => None
        end
      else None
  | Throw _ => None
  end.



(** While an instance leads, the lock is its own and its lease has not
    run out. *)
Definition leader_holds_lock (s : System) : Prop :=
  forall i, role s i = Leader ->
            exists e, lock s = Some (mkLease i e) /\ now s <= e.

(** The [initializeAuth] calls of a list of instances, each with its
    timeout, in that order. *)
Definition calls (callers : list (pid * time)) : list Action :=
  map (fun c => Call (fst c) (snd c)) callers.

(** How many times a trace calls [open]. *)
Fixpoint times_opened (t : trace) : nat :=
  match t with
  | [] => 0
  | Open _ :: r => S (times_opened r)
  | _ :: r => times_opened r
  end.

End Properties.
Export Properties.

(* ===================================================================== *)
(** * Concrete inputs *)
(* ===================================================================== *)

Module Samples.

Definition ENOENT (path : jsstring) : error :=
  Error (js "Error") (js "ENOENT: no such file or directory, open '" ++ path ++ js "'").

(** A disk with a certificate and a key, and nothing else. *)
Definition disk_with_cert_and_key : filesystem :=
  fun path =>
    if jsstring_eqb path (js "/certs/client.crt") then Ok [45; 45; 67]%N
    else if jsstring_eqb path (js "/certs/client.key") then Ok [45; 45; 75]%N
    else Throw (ENOENT path).

Definition cfg_cert_and_key : TLSClientCertConfig :=
  mkTLSClientCertConfig (Some (js "/certs/client.crt"))
    (Some (js "/certs/client.key")) None None None.

Definition cfg_missing_cert : TLSClientCertConfig :=
  mkTLSClientCertConfig (Some (js "/certs/nonexistent.crt"))
    (Some (js "/certs/client.key")) None None None.


Definition options_with (tls : option TLSClientCertConfig) : OAuthProviderOptions :=
  mkOAuthProviderOptions (js "https://example.com/mcp") 3334 (js "localhost")
    None (Some (js "MCP CLI Proxy")) None None None None None None
    (js "0123abcd") None tls.

Definition invalid_url : error := Error (js "TypeError") (js "Invalid URL").

(** The characters of the authority of a URL: up to the first of [/ ? #]. *)
Fixpoint authority (s : jsstring) : jsstring :=
  match s with
  | [] => []
  | c :: r => if ((c =? 47) || (c =? 63) || (c =? 35))%N then [] else c :: authority r
  end.

Fixpoint strip_prefix (pre s : jsstring) : option jsstring :=
  match pre, s with
  | [], _ => Some s
  | a :: pre', b :: s' => if (a =? b)%N then strip_prefix pre' s' else None
  | _ :: _, [] => None
  end.

(** [new URL(s).origin] on the plain [http://host[:port]/...] and
    [https://...] URLs; any other string is taken as one the constructor
    rejects, as it does a string without a scheme. *)
Definition plain_origin (s : jsstring) : result jsstring :=
  match strip_prefix (js "https://") s with
  | Some rest =>
      if truthy (authority rest) then Ok (js "https://" ++ authority rest)
      else Throw invalid_url
  | None =>
      match strip_prefix (js "http://") s with
      | Some rest =>
          if truthy (authority rest) then Ok (js "http://" ++ authority rest)
          else Throw invalid_url
      | None => Throw invalid_url
      end
  end.

Definition example_metadata : AuthorizationServerMetadata :=
  mkAuthorizationServerMetadata (js "https://example.com")
    (Some [js "openid"; js "email"; js "profile"; js "custom:read"]) [].

(** A network whose metadata endpoint answers 200 with [example_metadata]. *)
Definition net_ok : network :=
  mkNetwork plain_origin
    (fun _ _ => Ok (mkResponse true 200 (js "OK") (JsonValue example_metadata))).

(** A network whose metadata endpoint answers 404. *)
Definition net_404 : network :=
  mkNetwork plain_origin
    (fun _ _ => Ok (mkResponse false 404 (js "Not Found") JsonNull)).

(** An instance with the given static metadata, registered client
    information and server metadata, and no TLS configuration. *)
Definition provider_with (static : StaticOAuthClientMetadata)
    (registered : option OAuthClientInformationFull)
    (server : option AuthorizationServerMetadata) : NodeOAuthClientProvider :=
  mkProvider (options_with None) (js "0123abcd") (js "/oauth/callback")
    (js "MCP CLI Proxy") (js "https://github.com/modelcontextprotocol/mcp-cli")
    (js "2e6dc280-f3c3-4e01-99a7-8181dbd1d23d") (js "0.1.0")
    static None None (js "uuid") registered server None None.

Definition authorize_url : URL :=
  mkURL (js "https://example.com/authorize")
    [(js "response_type", js "code"); (js "scope", js "stale")].



(** A platform without a browser: [open] fails. *)
Definition headless : platform :=
  mkPlatform
    (fun u => href_base u
              ++ flat_map (fun kv => js "&" ++ fst kv ++ js "=" ++ snd kv) (searchParams u))
    (fun s => Ok s)
    (fun _ => Throw (Error (js "Error") (js "spawn xdg-open ENOENT"))).

End Samples.
Export Samples.

(* ===================================================================== *)
(** * proxy.ts: the run of the proxy and its end *)
(* ===================================================================== *)

Module Lifecycle.

(** [String.prototype.startsWith], on code units. *)
Fixpoint startsWith (s needle : jsstring) : bool :=
  match needle, s with
  | [], _ => true
  | a :: needle', b :: s' => (a =? b)%N && startsWith s' needle'
  | _ :: _, [] => false
  end.

(** [String.prototype.includes]. *)
Fixpoint includes (s needle : jsstring) : bool :=
  match s with
  | [] => startsWith [] needle
  | _ :: r => startsWith s needle || includes r needle
  end.

(** What the process does, in order: the effects recorded so far, and the
    calls that start, close and end things. *)
Inductive proc_step :=
| Did (e : event)
| Start_relay          (* mcpProxy({...}) *)
| Start_local          (* localTransport.start() *)
| Install_handlers     (* setupSignalHandlers(cleanup) *)
| Hint_vpn             (* log(`You may be behind a VPN! ...`) *)
| Close_server (server : N)  (* server.close() *)
| Exit (code : Z).     (* process.exit(code) *)

Definition did (t : trace) : list proc_step := map Did t.

Definition SELF_SIGNED : jsstring :=
  js "self-signed certificate in certificate chain".

(** The [catch] block of [runProxy]; [server] is the outer variable that
    [authInitializer] assigns. *)
Definition fatal (error : error) (server : option N) : list proc_step :=
  Did (Log (js "Fatal error:"))
  :: (if includes (err_message error) SELF_SIGNED then [Hint_vpn] else [])
  ++ (match server with Some h => [Close_server h] | None => [] end)
  ++ [Exit 1].

(** The arguments of [runProxy] that the model uses. *)
Record ProxyArgs := mkProxyArgs {
  arg_serverUrl : jsstring;
  arg_callbackPort : N;
  arg_host : jsstring;
  arg_staticOAuthClientMetadata : StaticOAuthClientMetadata;
  arg_staticOAuthClientInfo : StaticOAuthClientInformationFull;
  arg_authorizeResource : option jsstring;
  arg_serverUrlHash : jsstring;
  arg_tlsClientCert : option TLSClientCertConfig
}.

(** What [runProxy] meets once it is set up: the run of
    [connectToRemoteServer] (it resolves to the transport, of which the
    name of the constructor is kept), the value of the variable [server]
    when that run is over, and how [localTransport.start()] settles. *)
Record Session := mkSession {
  connected : comp jsstring;
  server_var : option N;
  started : result unit
}.

(** [runProxy(...)]: the steps of the process, and whether the promise it
    returns is fulfilled or rejected. What comes before the [try] can
    throw; what the [try] encloses ends in the [catch] block. *)
Definition runProxy (fs : filesystem) (net : network)
    (MCP_REMOTE_VERSION uuid : jsstring) (a : ProxyArgs) (ses : Session)
  : list proc_step * result unit :=
  match runProxy_setup fs net MCP_REMOTE_VERSION uuid
          (arg_serverUrl a) (arg_callbackPort a) (arg_host a)
          (arg_staticOAuthClientMetadata a) (arg_staticOAuthClientInfo a)
          (arg_authorizeResource a) (arg_serverUrlHash a) (arg_tlsClientCert a) with
  | (t, Throw e) => (did t, Throw e)
  | (t, Ok _) =>
      match connected ses with
      | (tc, Throw error) => (did t ++ did tc ++ fatal error (server_var ses), Ok tt)
      | (tc, Ok name) =>
          match started ses with
          | Throw error =>
              (did t ++ did tc ++ [Start_relay; Start_local]
                 ++ fatal error (server_var ses), Ok tt)
          | Ok _ =>
              (did t ++ did tc
                 ++ [Start_relay; Start_local;
                     Did (Log (js "Local STDIO server running"));
                     Did (Log (js "Proxy established successfully between local STDIO and remote " ++ name));
                     Did (Log (js "Press Ctrl+C to exit"));
                     Install_handlers],
               Ok tt)
          end
      end
  end.

(** The end of the file: [parseCommandLineArgs(...).then(runProxy).catch(...)];
    [parsed] is what [parseCommandLineArgs] of [utils] settles to. *)
Definition main (fs : filesystem) (net : network)
    (MCP_REMOTE_VERSION uuid : jsstring) (parsed : result ProxyArgs)
    (ses : Session) : list proc_step :=
  match parsed with
  | Throw error => [Did (Log (js "Fatal error:")); Exit 1]
  | Ok a =>
      match runProxy fs net MCP_REMOTE_VERSION uuid a ses with
      | (t, Ok _) => t
      | (t, Throw error) => t ++ [Did (Log (js "Fatal error:")); Exit 1]
      end
  end.

End Lifecycle.
Export Lifecycle.

(* ===================================================================== *)
(** * Further notions *)
(* ===================================================================== *)

Module Notions.

(** The lines a trace writes, to the user log and to the debug log. *)
Fixpoint log_lines (t : trace) : trace :=
  match t with
  | [] => []
  | Log m :: r => Log m :: log_lines r
  | DebugLog m :: r => DebugLog m :: log_lines r
  | _ :: r => log_lines r
  end.

(** The lines a trace writes to the user log. *)
Fixpoint user_log (t : trace) : list jsstring :=
  match t with
  | [] => []
  | Log m :: r => m :: user_log r
  | _ :: r => user_log r
  end.

(** The requests a trace makes: the URL and the dispatcher of each. *)
Fixpoint requests (t : trace) : list (jsstring * option Agent) :=
  match t with
  | [] => []
  | FetchRequest url d :: r => (url, d) :: requests r
  | _ :: r => requests r
  end.

(** The paths of a list up to and including the first that cannot be
    read. *)
Fixpoint through_first_unreadable (fs : filesystem) (paths : list jsstring)
  : list jsstring :=
  match paths with
  | [] => []
  | p :: r => match fs p with
              | Ok _ => p :: through_first_unreadable fs r
              | Throw _ => [p]
              end
  end.

(** Two file systems that agree on which files can be read and on the
    error of those that cannot, whatever the files hold. *)
Definition same_readability (fs1 fs2 : filesystem) : Prop :=
  forall path,
    match fs1 path, fs2 path with
    | Ok _, Ok _ => True
    | Throw e1, Throw e2 => e1 = e2
    | _, _ => False
    end.

(** The metadata the pre-fetch of [runProxy] obtains. *)
Definition prefetched (net : network) (serverUrl : jsstring)
    (customAgent : option Agent) : option AuthorizationServerMetadata :=
  match URL_origin net serverUrl with
  | Ok origin => metadata_of net (origin ++ metadataPath) customAgent
  | Throw _ => None
  end.

(** The object literal of [clientMetadata] before the spread. *)
Definition default_metadata (p : NodeOAuthClientProvider) : jsobject :=
  [ ("redirect_uris", VStrings [redirectUrl p]);
    ("token_endpoint_auth_method", VString (js "none"));
    ("grant_types", VStrings [js "authorization_code"; js "refresh_token"]);
    ("response_types", VStrings [js "code"]);
    ("client_name", VString (clientName p));
    ("client_uri", VString (clientUri p));
    ("software_id", VString (softwareId p));
    ("software_version", VString (softwareVersion p)) ]%string.

(** The properties of an optional object. *)
Definition props_of (o : option jsobject) : jsobject :=
  match o with Some props => props | None => [] end.

(** The value a property list gives a key when the last assignment wins. *)
Definition last_value (k : string) (props : jsobject) : option jsvalue :=
  obj_get k (rev props).

(** What a call cannot change of an instance: everything but the
    registered client information and the server metadata it holds. *)
Definition identity (p : NodeOAuthClientProvider) :=
  (serverUrlHash p, callbackPath p, clientName p, clientUri p,
   softwareId p, softwareVersion p, staticOAuthClientMetadata p,
   staticOAuthClientInfo p, authorizeResource p, _state p,
   tlsClientCert p, customAgent p,
   (Types.serverUrl (options p), Types.callbackPort (options p),
    Types.host (options p))).

(** A computation whose resulting instance has the identity of [p]. *)
Definition keeps_identity {A} (p : NodeOAuthClientProvider)
    (proj : A -> NodeOAuthClientProvider) (m : comp A) : Prop :=
  forall x, outcome m = Ok x -> identity (proj x) = identity p.

(** The pairs of a query other than those of the two names the method
    sets. *)
Definition other_params (l : list (jsstring * jsstring)) : list (jsstring * jsstring) :=
  filter (fun kv => negb (jsstring_eqb (fst kv) (js "scope"))
                    && negb (jsstring_eqb (fst kv) (js "resource"))) l.

(** How many times a run reaches a step. *)
Fixpoint count_step (f : proc_step -> bool) (l : list proc_step) : nat :=
  match l with
  | [] => 0
  | x :: r => (if f x then 1 else 0) + count_step f r
  end.

(** The error that ends the session, if any: that of
    [connectToRemoteServer], or else that of [localTransport.start()]. *)
Definition failure (ses : Session) : option error :=
  match outcome (connected ses) with
  | Throw e => Some e
  | Ok _ => match started ses with Throw e => Some e | Ok _ => None end
  end.

(** The error that ends the whole run, if any: that of the command line,
    of the TLS files, or of the session. *)
Definition run_failure (fs : filesystem) (parsed : result ProxyArgs)
    (ses : Session) : option error :=
  match parsed with
  | Throw e => Some e
  | Ok a =>
      match arg_tlsClientCert a with
      | Some cfg =>
          match first_unreadable fs (referenced cfg) with
          | Some e => Some e
          | None => failure ses
          end
      | None => failure ses
      end
  end.

Definition is_Install_handlers (x : proc_step) : bool :=
  match x with Install_handlers => true | _ => false end.

Definition is_Exit (x : proc_step) : bool :=
  match x with Exit _ => true | _ => false end.
Definition is_Close_server (x : proc_step) : bool :=
  match x with Close_server _ => true | _ => false end.
Definition is_request (x : proc_step) : bool :=
  match x with Did (FetchRequest _ _) => true | _ => false end.
Definition is_start (x : proc_step) : bool :=
  match x with Start_relay | Start_local | Install_handlers => true | _ => false end.

End Notions.
Export Notions.

(* ===================================================================== *)
(** * Traces and computations *)
(* ===================================================================== *)

Section TraceFacts.

Context {A B : Type}.

Lemma events_bind (m : comp A) (k : A -> comp B) :
  events (bind m k) =
  events m ++ match outcome m with Ok a => events (k a) | Throw _ => [] end.
Proof.
  destruct m as [t [a|e]]; cbn.
  - destruct (k a); reflexivity.
  - now rewrite app_nil_r.
Qed.

Lemma outcome_bind (m : comp A) (k : A -> comp B) :
  outcome (bind m k) =
  match outcome m with Ok a => outcome (k a) | Throw e => Throw e end.
Proof.
  destruct m as [t [a|e]]; cbn; [destruct (k a)|]; reflexivity.
Qed.

Lemma bind_Ok (t : trace) (a : A) (k : A -> comp B) :
  bind (t, Ok a) k = (t ++ events (k a), outcome (k a)).
Proof. cbn. now destruct (k a). Qed.

Lemma bind_Throw (t : trace) (e : error) (k : A -> comp B) :
  bind (t, Throw e) k = (t, Throw e).
Proof. reflexivity. Qed.

End TraceFacts.

Lemma agents_built_app (t1 t2 : trace) :
  agents_built (t1 ++ t2) = agents_built t1 + agents_built t2.
Proof.
  induction t1 as [|ev t1 IH]; [reflexivity|].
  destruct ev; cbn; rewrite IH; reflexivity.
Qed.

Lemma times_logged_app (msg : jsstring) (t1 t2 : trace) :
  times_logged msg (t1 ++ t2) = times_logged msg t1 + times_logged msg t2.
Proof.
  induction t1 as [|ev t1 IH]; [reflexivity|].
  destruct ev; cbn; rewrite IH; lia.
Qed.

Lemma files_read_app (t1 t2 : trace) :
  files_read (t1 ++ t2) = files_read t1 ++ files_read t2.
Proof.
  induction t1 as [|ev t1 IH]; [reflexivity|].
  destruct ev; cbn; rewrite IH; reflexivity.
Qed.

Lemma jsstring_eqb_refl (s : jsstring) : jsstring_eqb s s = true.
Proof. unfold jsstring_eqb. destruct (jsstring_eq_dec s s); congruence. Qed.

(* ===================================================================== *)
(** * The TLS identity *)
(* ===================================================================== *)

Lemma loaded_is_not_the_warning (x : jsstring) :
  jsstring_eqb (js "Loaded TLS " ++ x) WARNING_verification_disabled = false.
Proof.
  unfold jsstring_eqb.
  destruct (jsstring_eq_dec _ _) as [E|]; [exfalso | reflexivity].
  revert E. cbn. discriminate.
Qed.

Lemma error_is_not_the_warning (x : jsstring) :
  jsstring_eqb (js "Error loading TLS " ++ x) WARNING_verification_disabled = false.
Proof.
  unfold jsstring_eqb.
  destruct (jsstring_eq_dec _ _) as [E|]; [exfalso | reflexivity].
  revert E. cbn. discriminate.
Qed.

Section LoadFile.

Variable fs : filesystem.
Variables (what : jsstring) (store : Buffer -> tlsOptions -> tlsOptions).
Variable o : tlsOptions.

Lemma load_file_skip field :
  referenced_path field = None ->
  load_file fs field what store o = ([], Ok o).
Proof.
  unfold referenced_path, load_file.
  destruct field as [path|]; [destruct (truthy path)|];
    intros; try discriminate; reflexivity.
Qed.

Lemma load_file_loaded field path buf :
  referenced_path field = Some path -> fs path = Ok buf ->
  load_file fs field what store o =
  ([DebugLog (js "Loading TLS " ++ what); ReadFileSync path;
    Log (js "Loaded TLS " ++ what ++ js " from: " ++ path)],
   Ok (store buf o)).
Proof.
  unfold referenced_path, load_file.
  destruct field as [p|]; [destruct (truthy p) eqn:T|]; try congruence.
  intros [= ->] Hfs. unfold readFileSync. rewrite Hfs. reflexivity.
Qed.

Lemma load_file_failed field path e :
  referenced_path field = Some path -> fs path = Throw e ->
  load_file fs field what store o =
  ([DebugLog (js "Loading TLS " ++ what); ReadFileSync path;
    Log (js "Error loading TLS " ++ what ++ js ": " ++ String_of_error e)],
   Throw e).
Proof.
  unfold referenced_path, load_file.
  destruct field as [p|]; [destruct (truthy p) eqn:T|]; try congruence.
  intros [= ->] Hfs. unfold readFileSync. rewrite Hfs. reflexivity.
Qed.

(** Loading a field never constructs an agent and never logs the warning
    about disabled verification. *)
Lemma load_file_quiet field :
  agents_built (events (load_file fs field what store o)) = 0
  /\ times_logged WARNING_verification_disabled
       (events (load_file fs field what store o)) = 0.
Proof.
  destruct (referenced_path field) as [path|] eqn:R.
  - destruct (fs path) as [buf|e] eqn:F.
    + rewrite (load_file_loaded _ R F). split; [reflexivity|].
      cbn [events fst times_logged].
      now rewrite loaded_is_not_the_warning.
    + rewrite (load_file_failed _ R F). split; [reflexivity|].
      cbn [events fst times_logged].
      now rewrite error_is_not_the_warning.
  - rewrite (load_file_skip _ R). split; reflexivity.
Qed.

End LoadFile.

Ltac load_step fs field :=
  let R := fresh "R" in
  destruct (referenced_path field) as [?|] eqn:R;
  [ match type of R with
    | _ = Some ?p =>
        let F := fresh "F" in
        destruct (fs p) eqn:F;
        [ rewrite (load_file_loaded fs _ _ _ _ R F)
        | rewrite (load_file_failed fs _ _ _ _ R F) ]
    end
  | rewrite (load_file_skip fs _ _ _ _ R) ];
  cbn -[js WARNING_verification_disabled load_file].

Ltac finish_build cfg :=
  destruct (passphrase cfg) as [[|? ?]|];
  destruct (rejectUnauthorized cfg) as [[|]|];
  cbn -[js WARNING_verification_disabled];
  rewrite ?loaded_is_not_the_warning, ?error_is_not_the_warning,
    ?jsstring_eqb_refl;
  repeat split; reflexivity.

(** What [createTLSAgent] does, by the first referenced file that cannot
    be read. *)
Lemma createTLSAgent_cases (fs : filesystem) (cfg : TLSClientCertConfig) :
  match first_unreadable fs (referenced cfg) with
  | Some e =>
      outcome (createTLSAgent fs (Some cfg)) = Throw e
      /\ agents_built (events (createTLSAgent fs (Some cfg))) = 0
      /\ times_logged WARNING_verification_disabled
           (events (createTLSAgent fs (Some cfg))) = 0
  | None =>
      outcome (createTLSAgent fs (Some cfg)) = Ok (complete_identity fs cfg)
      /\ agents_built (events (createTLSAgent fs (Some cfg))) = 1
      /\ files_read (events (createTLSAgent fs (Some cfg))) = referenced cfg
      /\ times_logged WARNING_verification_disabled
           (events (createTLSAgent fs (Some cfg))) =
         match rejectUnauthorized cfg with Some false => 1 | _ => 0 end
  end.
Proof.
  unfold createTLSAgent, referenced, complete_identity, contents.
  load_step fs (cert cfg); rewrite ?F.
  - load_step fs (key cfg); rewrite ?F0.
    + load_step fs (ca cfg); rewrite ?F1; finish_build cfg.
    + finish_build cfg.
    + load_step fs (ca cfg); rewrite ?F0; finish_build cfg.
  - finish_build cfg.
  - load_step fs (key cfg); rewrite ?F.
    + load_step fs (ca cfg); rewrite ?F0; finish_build cfg.
    + finish_build cfg.
    + load_step fs (ca cfg); rewrite ?F; finish_build cfg.
Qed.



(** The constructor with a TLS configuration: the agent is the one
    [createTLSAgent] returns, and its failure is the constructor's. *)
Lemma constructor_with_tls fs version uuid options cfg :
  Types.tlsClientCert options = Some cfg ->
  events (constructor fs version uuid options) =
    DebugLog (js "Creating custom TLS agent with client certificate")
      :: events (createTLSAgent fs (Some cfg))
  /\ match outcome (createTLSAgent fs (Some cfg)) with
     | Ok a => exists p, outcome (constructor fs version uuid options) = Ok p
                         /\ customAgent p = Some a
     | Throw e => outcome (constructor fs version uuid options) = Throw e
     end.
Proof.
  intros H. unfold constructor. rewrite H.
  destruct (createTLSAgent fs (Some cfg)) as [t [a|e]].
  - cbn -[js]. rewrite !app_nil_r. split; [reflexivity|].
    eexists. split; reflexivity.
  - cbn -[js]. split; reflexivity.
Qed.

Lemma constructor_without_tls fs version uuid options :
  Types.tlsClientCert options = None ->
  events (constructor fs version uuid options) = []
  /\ exists p, outcome (constructor fs version uuid options) = Ok p
               /\ customAgent p = None.
Proof.
  intros H. unfold constructor. rewrite H. cbn -[js].
  split; [reflexivity|]. eexists. split; reflexivity.
Qed.






(* ===================================================================== *)
(** * The agent of an instance *)
(* ===================================================================== *)

Section Quiet.

Context {A B : Type}.

Lemma quiet_bind (m : comp A) (k : A -> comp B) :
  quiet m -> (forall a, quiet (k a)) -> quiet (bind m k).
Proof.
  unfold quiet. intros Hm Hk. rewrite events_bind, agents_built_app, Hm.
  destruct (outcome m); [apply Hk | reflexivity].
Qed.

Lemma quiet_try_catch (m : comp A) (h : error -> comp A) :
  quiet m -> (forall e, quiet (h e)) -> quiet (try_catch m h).
Proof.
  unfold quiet. destruct m as [t [a|e]]; cbn; intros Hm Hh; [exact Hm|].
  specialize (Hh e). destruct (h e) as [t' r]. cbn in *.
  now rewrite agents_built_app, Hm, Hh.
Qed.

Lemma keeps_agent_bind p proj (m : comp A) (k : A -> comp B) :
  (forall a, keeps_agent p proj (k a)) -> keeps_agent p proj (bind m k).
Proof.
  unfold keeps_agent. intros Hk x. rewrite outcome_bind.
  destruct (outcome m); [apply Hk | discriminate].
Qed.

Lemma keeps_agent_try_catch p proj (m : comp A) (h : error -> comp A) :
  keeps_agent p proj m -> (forall e, keeps_agent p proj (h e)) ->
  keeps_agent p proj (try_catch m h).
Proof.
  unfold keeps_agent. destruct m as [t [a|e]]; cbn; intros Hm Hh x; [apply Hm|].
  specialize (Hh e). destruct (h e) as [t' r]. cbn in *. apply Hh.
Qed.

End Quiet.

Ltac quiet_step :=
  first
    [ apply quiet_bind; [|intros ?]
    | apply quiet_try_catch; [|intros ?]
    | match goal with
      | |- quiet (match ?x with _ => _ end) => destruct x
      | |- quiet (let (_, _) := ?x in _) => destruct x
      end
    | reflexivity ].

Ltac keeps_step :=
  first
    [ apply keeps_agent_bind; intros ?
    | apply keeps_agent_try_catch; [|intros ?]
    | match goal with
      | |- keeps_agent _ _ (match ?x with _ => _ end) => destruct x
      end
    | (intros ? [= <-]; reflexivity) ].

Lemma quiet_fetchAuthorizationServerMetadata net u a :
  quiet (fetchAuthorizationServerMetadata net u a).
Proof.
  unfold fetchAuthorizationServerMetadata, getMetadataUrl, read_metadata.
  repeat quiet_step.
Qed.

Lemma quiet_getEffectiveScope p : quiet (getEffectiveScope p).
Proof. unfold getEffectiveScope. repeat quiet_step. Qed.

Lemma quiet_clientMetadata p : quiet (clientMetadata p).
Proof.
  unfold clientMetadata.
  repeat first [apply quiet_getEffectiveScope | quiet_step].
Qed.

Lemma quiet_getAuthorizationServerMetadata net p :
  quiet (getAuthorizationServerMetadata net p).
Proof.
  unfold getAuthorizationServerMetadata.
  repeat first [apply quiet_fetchAuthorizationServerMetadata | quiet_step].
Qed.

Lemma keeps_getAuthorizationServerMetadata net p :
  keeps_agent p snd (getAuthorizationServerMetadata net p).
Proof. unfold getAuthorizationServerMetadata. repeat keeps_step. Qed.

Lemma quiet_clientInformation disk p : quiet (clientInformation disk p).
Proof. unfold clientInformation. repeat quiet_step. Qed.

Lemma keeps_clientInformation disk p :
  keeps_agent p snd (clientInformation disk p).
Proof.
  unfold clientInformation. repeat keeps_step.
  intros x [= <-]. cbn. now destruct (client_info_json _).
Qed.

Lemma quiet_saveClientInformation ci disk p :
  quiet (saveClientInformation ci disk p).
Proof. unfold saveClientInformation. repeat quiet_step. Qed.

Lemma keeps_saveClientInformation ci disk p :
  keeps_agent p snd (saveClientInformation ci disk p).
Proof. unfold saveClientInformation. repeat keeps_step. Qed.

Lemma quiet_tokens disk p : quiet (tokens disk p).
Proof. unfold tokens. repeat quiet_step. Qed.

Lemma quiet_saveTokens t disk p : quiet (saveTokens t disk p).
Proof. unfold saveTokens. repeat quiet_step. Qed.

Lemma quiet_saveCodeVerifier v disk p : quiet (saveCodeVerifier v disk p).
Proof. unfold saveCodeVerifier. repeat quiet_step. Qed.

Lemma quiet_codeVerifier disk p : quiet (codeVerifier disk p).
Proof. unfold codeVerifier, readTextFile_verifier. repeat quiet_step. Qed.

Lemma quiet_invalidateCredentials s disk p :
  quiet (invalidateCredentials s disk p).
Proof. unfold invalidateCredentials. repeat quiet_step. Qed.

Lemma keeps_invalidateCredentials s disk p :
  keeps_agent p snd (invalidateCredentials s disk p).
Proof. unfold invalidateCredentials. repeat keeps_step. Qed.

Lemma quiet_redirectToAuthorization net plat p u :
  quiet (redirectToAuthorization net plat p u).
Proof.
  unfold redirectToAuthorization.
  apply quiet_bind.
  - unfold quiet, getAuthorizationServerMetadata_started. cbn [events fst].
    destruct (authorizationServerMetadata p); [reflexivity|].
    destruct (URL_origin net _); reflexivity.
  - intros _. repeat first [apply quiet_getEffectiveScope | quiet_step].
Qed.

Lemma after_keeps_agent {A} (w : world) (m : comp A) (f : A -> returned * world) :
  quiet m ->
  (forall a, outcome m = Ok a -> customAgent (fst (snd (f a))) = customAgent (fst w)) ->
  agents_built (fst (after w m f)) = 0
  /\ customAgent (fst (snd (snd (after w m f)))) = customAgent (fst w).
Proof.
  unfold quiet. destruct m as [t [a|e]]; cbn; intros Q K; split; auto.
Qed.

(** No call on an instance constructs an agent or replaces the one the
    instance holds. *)
Lemma invoke_keeps_agent net plat c w :
  agents_built (fst (invoke net plat c w)) = 0
  /\ customAgent (fst (snd (snd (invoke net plat c w)))) = customAgent (fst w).
Proof.
  destruct w as [p disk].
  destruct c; cbn [invoke]; try (split; reflexivity);
    apply after_keeps_agent; cbn [fst snd];
    first
      [ apply quiet_clientMetadata
      | apply quiet_getAuthorizationServerMetadata
      | apply keeps_getAuthorizationServerMetadata
      | apply quiet_clientInformation
      | apply keeps_clientInformation
      | apply quiet_saveClientInformation
      | apply keeps_saveClientInformation
      | apply quiet_tokens
      | apply quiet_saveTokens
      | apply quiet_redirectToAuthorization
      | apply quiet_saveCodeVerifier
      | apply quiet_codeVerifier
      | apply quiet_invalidateCredentials
      | apply keeps_invalidateCredentials
      | reflexivity ].
Qed.

Lemma run_keeps_agent net plat cs w :
  agents_built (fst (run net plat cs w)) = 0
  /\ customAgent (fst (snd (run net plat cs w))) = customAgent (fst w).
Proof.
  revert w. induction cs as [|c cs IH]; intros w; [split; reflexivity|].
  cbn [run].
  pose proof (invoke_keeps_agent net plat c w) as [Q K].
  destruct (invoke net plat c w) as [t [r w']]. cbn [fst snd] in Q, K.
  specialize (IH w') as [Q' K'].
  destruct (run net plat cs w') as [t' w'']. cbn [fst snd] in *.
  rewrite agents_built_app, Q, Q'. split; [reflexivity | congruence].
Qed.

(** The constructor builds one agent when it returns an instance for a TLS
    configuration, and none otherwise. *)
Lemma constructor_agent_count fs version uuid opts :
  match outcome (constructor fs version uuid opts) with
  | Ok p =>
      agents_built (events (constructor fs version uuid opts))
        = match customAgent p with Some _ => 1 | None => 0 end
      /\ (customAgent p = None <-> Types.tlsClientCert opts = None)
  | Throw _ => agents_built (events (constructor fs version uuid opts)) = 0
  end.
Proof.
  destruct (Types.tlsClientCert opts) as [cfg|] eqn:T.
  - destruct (constructor_with_tls fs version uuid opts T) as [E O].
    pose proof (createTLSAgent_cases fs cfg) as C.
    destruct (first_unreadable fs (referenced cfg)) as [e|].
    + destruct C as (OC & B & _). rewrite OC in O. rewrite O, E.
      cbn [agents_built]. exact B.
    + destruct C as (OC & B & _). rewrite OC in O. destruct O as (p & O & G).
      rewrite O, E, G. cbn [agents_built]. split; [exact B|].
      split; discriminate.
  - destruct (constructor_without_tls fs version uuid opts T) as (E & p & O & G).
    rewrite O, E, G. split; [reflexivity|]. split; reflexivity.
Qed.

(** After the constructor, [runProxy] builds no agent: it takes the one of
    the instance. *)
Lemma runProxy_setup_agent fs net version uuid url port hst scm sci res hash tls :
  agents_built
    (events (runProxy_setup fs net version uuid url port hst scm sci res hash tls))
  = agents_built
      (events (constructor fs version uuid
                 (mkOAuthProviderOptions url port hst None
                    (Some (js "MCP CLI Proxy")) None None None scm sci res hash
                    None tls)))
  /\ forall prov agent overridden,
       outcome (runProxy_setup fs net version uuid url port hst scm sci res hash tls)
         = Ok (prov, agent, overridden) ->
       agent = getCustomAgent prov
       /\ overridden = match agent with Some _ => true | None => false end
       /\ exists p,
            outcome (constructor fs version uuid
                       (mkOAuthProviderOptions url port hst None
                          (Some (js "MCP CLI Proxy")) None None None scm sci res
                          hash None tls)) = Ok p
            /\ getCustomAgent p = agent.
Proof.
  unfold runProxy_setup.
  destruct (constructor _ _ _ _) as [t [p|e]].
  - rewrite bind_Ok. cbn [events outcome fst snd].
    assert (Q : forall (m : comp (NodeOAuthClientProvider * option Agent * bool)),
               quiet m -> agents_built (t ++ events m) = agents_built t).
    { intros m H. rewrite agents_built_app. unfold quiet in H. lia. }
    split.
    + apply Q.
      repeat first [apply quiet_fetchAuthorizationServerMetadata | quiet_step].
    + intros prov agent overridden.
      rewrite !outcome_bind.
      destruct (getCustomAgent p) as [a|] eqn:G; cbn [outcome snd debugLog emit ret bind];
        match goal with
        | |- context [try_catch ?m ?h] => destruct (try_catch m h) as [t' [asm|e']]
        end; cbn; intros [= <- <- <-]; (split; [|split]);
        [ | | eexists; split; eauto | | | eexists; split; eauto ]; auto.
  - cbn. split; [reflexivity | discriminate].
Qed.

(** C6. In a process run the TLS identity is built at most once, in the
    provider constructor, and only when a TLS configuration is supplied;
    after that, whatever members are called in whatever order, no agent is
    constructed again, every [getCustomAgent()] returns the agent of the
    constructor, [runProxy] takes that agent, and every request made
    through the fetch it installs carries that agent as its dispatcher. *)
Theorem tls_identity_built_once
    (fs : filesystem) (net : network) (plat : platform)
    (version uuid : jsstring) (opts : OAuthProviderOptions) :
  agents_built (events (constructor fs version uuid opts)) <= 1
  /\ (Types.tlsClientCert opts = None ->
        agents_built (events (constructor fs version uuid opts)) = 0)
  /\ (forall p,
        outcome (constructor fs version uuid opts) = Ok p ->
        (getCustomAgent p = None <-> Types.tlsClientCert opts = None)
        /\ (forall calls disk,
              agents_built (fst (run net plat calls (p, disk))) = 0
              /\ fst (snd (invoke net plat m_getCustomAgent
                             (snd (run net plat calls (p, disk)))))
                 = Ok (r_agent (getCustomAgent p)))
        /\ (forall a (R : Type) (undiciFetch : jsstring -> RequestInit -> R)
                   input init,
              getCustomAgent p = Some a ->
              exists init',
                fetch_override undiciFetch a input init = undiciFetch input init'
                /\ dispatcher init' = getCustomAgent p))
  /\ (forall url port hst scm sci res hash tls,
        agents_built
          (events (runProxy_setup fs net version uuid url port hst scm sci res hash tls))
        <= 1
        /\ forall prov agent overridden,
             outcome (runProxy_setup fs net version uuid url port hst scm sci res hash tls)
               = Ok (prov, agent, overridden) ->
             agent = getCustomAgent prov
             /\ (agent = None <-> tls = None)).
Proof.
  pose proof (constructor_agent_count fs version uuid opts) as C.
  split; [|split; [|split]].
  - destruct (outcome (constructor fs version uuid opts)) as [p|e].
    + destruct C as [C _]. rewrite C. destruct (customAgent p); lia.
    + lia.
  - intros T. destruct (constructor_without_tls fs version uuid opts T) as [E _].
    now rewrite E.
  - intros p O. rewrite O in C. destruct C as [_ C]. split; [exact C|]. split.
    + intros calls disk.
      pose proof (run_keeps_agent net plat calls (p, disk)) as [Q K].
      split; [exact Q|].
      destruct (run net plat calls (p, disk)) as [t [p' disk']].
      cbn [fst snd] in *. cbn. unfold getCustomAgent. now rewrite K.
    + intros a R undiciFetch input init G. unfold fetch_override.
      eexists. split; [reflexivity|]. cbn. now rewrite G.
  - clear C. intros url port hst scm sci res hash tls.
    destruct (runProxy_setup_agent fs net version uuid url port hst scm sci res hash tls)
      as [E S].
    set (o := mkOAuthProviderOptions url port hst None
                (Some (js "MCP CLI Proxy")) None None None scm sci res
                hash None tls) in *.
    pose proof (constructor_agent_count fs version uuid o) as C.
    split.
    + rewrite E.
      destruct (outcome (constructor fs version uuid o)) as [p|e].
      * destruct C as [C _]. rewrite C. destruct (customAgent p); lia.
      * lia.
    + intros prov agent overridden O.
      destruct (S prov agent overridden O) as (G & _ & p & Op & Gp).
      split; [exact G|].
      rewrite Op in C. destruct C as [_ C]. cbn in C.
      unfold getCustomAgent in Gp. now rewrite <- Gp.
Qed.

Lemma tls_identity_built_once_witness :
  agents_built
    (events (constructor disk_with_cert_and_key (js "0.1.0") (js "uuid")
               (options_with None))) = 0
  /\ exists p,
       outcome (constructor disk_with_cert_and_key (js "0.1.0") (js "uuid")
                  (options_with (Some cfg_cert_and_key))) = Ok p
       /\ agents_built
            (fst (run net_404 headless
                    [m_getAuthorizationServerMetadata; m_clientInformation;
                     m_redirectToAuthorization (mkURL (js "https://example.com/authorize") []);
                     m_invalidateCredentials all]
                    (p, fun _ => empty_namespace))) = 0
       /\ fst (snd (invoke net_404 headless m_getCustomAgent
                      (snd (run net_404 headless
                              [m_getAuthorizationServerMetadata; m_clientInformation;
                               m_redirectToAuthorization (mkURL (js "https://example.com/authorize") []);
                               m_invalidateCredentials all]
                              (p, fun _ => empty_namespace)))))
          = Ok (r_agent (getCustomAgent p)).
Proof.
  split.
  - apply (proj1 (proj2 (tls_identity_built_once disk_with_cert_and_key net_404
                           headless (js "0.1.0") (js "uuid") (options_with None)))).
    reflexivity.
  - eexists. split; [vm_compute; reflexivity|].
    apply (proj1 (proj2 (proj1 (proj2 (proj2
             (tls_identity_built_once disk_with_cert_and_key net_404 headless
                (js "0.1.0") (js "uuid") (options_with (Some cfg_cert_and_key)))))
             _ eq_refl))).
Defined.

(* ===================================================================== *)
(** * The effective scope and the authorization URL *)
(* ===================================================================== *)

Lemma trimStart_nil (s : jsstring) :
  trimStart s = [] <-> forall c, In c s -> is_ws c = true.
Proof.
  induction s as [|c r IH]; cbn [trimStart].
  - split; [intros _ c [] | reflexivity].
  - destruct (is_ws c) eqn:W.
    + rewrite IH. split.
      * intros H d [<-|Hd]; auto.
      * intros H d Hd. apply H. now right.
    + split; [discriminate|]. intros H.
      specialize (H c (or_introl eq_refl)). congruence.
Qed.

Lemma trimStart_incl (s : jsstring) (c : jschar) :
  In c (trimStart s) -> In c s.
Proof.
  induction s as [|d r IH]; cbn [trimStart]; [easy|].
  destruct (is_ws d); [right; auto | easy].
Qed.

Lemma trimStart_head (s : jsstring) :
  trimStart s <> [] -> exists c, In c (trimStart s) /\ is_ws c = false.
Proof.
  induction s as [|d r IH]; cbn [trimStart]; [congruence|].
  destruct (is_ws d) eqn:W; [exact IH|].
  intros _. exists d. split; [now left | exact W].
Qed.

Lemma trim_nil (s : jsstring) :
  trim s = [] <-> forall c, In c s -> is_ws c = true.
Proof.
  unfold trim, trimEnd. split.
  - intros H. apply trimStart_nil.
    destruct (trimStart s) as [|c r] eqn:T; [reflexivity|].
    assert (R : trimStart (rev (c :: r)) = []).
    { apply (f_equal (@rev jschar)) in H. now rewrite rev_involutive in H. }
    rewrite trimStart_nil in R.
    destruct (trimStart_head s) as (d & Hd & Wd); [congruence|].
    rewrite T in Hd. rewrite (R d) in Wd; [discriminate|].
    now apply -> in_rev.
  - intros H.
    assert (T : trimStart s = []) by now apply trimStart_nil.
    now rewrite T.
Qed.

(** The test [s && s.trim().length > 0] holds exactly of the strings with a
    character that is not white space. *)
Lemma nonblank_iff (s : jsstring) :
  nonblank (Some s) = true <-> non_whitespace s.
Proof.
  unfold nonblank, non_whitespace. rewrite andb_true_iff, Nat.ltb_lt. split.
  - intros [_ L].
    destruct (trim s) as [|c r] eqn:T; [cbn in L; lia|].
    assert (N : ~ (forall c, In c s -> is_ws c = true)).
    { rewrite <- trim_nil. congruence. }
    clear T L. induction s as [|d s IH]; [exfalso; apply N; intros ? []|].
    destruct (is_ws d) eqn:W.
    + destruct IH as (x & Hx & Wx).
      * intros H. apply N. intros y [<-|Hy]; auto.
      * exists x. split; [now right | exact Wx].
    + exists d. split; [now left | exact W].
  - intros (c & Hc & Wc). split.
    + destruct s; [destruct Hc | reflexivity].
    + destruct (trim s) as [|d r] eqn:T; [|cbn; lia].
      rewrite trim_nil in T. rewrite (T c Hc) in Wc. discriminate.
Qed.

Lemma nonblank_blank (o : option jsstring) :
  nonblank o = false <-> blank o.
Proof.
  unfold blank. destruct o as [s|].
  - rewrite <- not_true_iff_false, nonblank_iff. split.
    + intros H s' [= <-]. exact H.
    + intros H. now apply H.
  - split; [discriminate | reflexivity].
Qed.

Lemma obj_get_set (k : string) (v : jsvalue) (o : jsobject) :
  obj_get k (obj_set k v o) = Some v.
Proof.
  induction o as [|[k' v'] r IH]; cbn.
  - now rewrite String.eqb_refl.
  - destruct (String.eqb k k') eqn:E; cbn; rewrite E; [reflexivity | exact IH].
Qed.

Lemma params_get_set (name value : jsstring) (u : URL) :
  searchParams_get name (searchParams_set name value u) = Some value.
Proof.
  unfold searchParams_get, searchParams_set. cbn [searchParams].
  induction (searchParams u) as [|[k v] r IH]; cbn.
  - now rewrite jsstring_eqb_refl.
  - destruct (jsstring_eqb k name) eqn:E; cbn; rewrite E; [reflexivity | exact IH].
Qed.

Lemma filter_out_name (name : jsstring) (l : list (jsstring * jsstring)) :
  filter (fun kv => jsstring_eqb (fst kv) name)
    (filter (fun kv => negb (jsstring_eqb (fst kv) name)) l) = [].
Proof.
  induction l as [|[k v] r IH]; [reflexivity|]. cbn.
  destruct (jsstring_eqb k name) eqn:E; cbn; [exact IH|].
  now rewrite E.
Qed.

(** After [set], exactly one pair has the name. *)
Lemma params_set_once (name value : jsstring) (l : list (jsstring * jsstring)) :
  List.length (filter (fun kv => jsstring_eqb (fst kv) name)
                 (params_set name value l)) = 1.
Proof.
  induction l as [|[k v] r IH]; cbn.
  - now rewrite jsstring_eqb_refl.
  - destruct (jsstring_eqb k name) eqn:E; cbn; rewrite E; [|exact IH].
    cbn. now rewrite filter_out_name.
Qed.

(** [getEffectiveScope] always returns, and all it does besides is write
    to the debug log. *)
Lemma getEffectiveScope_returns (p : NodeOAuthClientProvider) :
  exists scope,
    outcome (getEffectiveScope p) = Ok scope
    /\ forall ev, In ev (events (getEffectiveScope p)) -> exists m, ev = DebugLog m.
Proof.
  unfold getEffectiveScope.
  repeat match goal with
         | |- context [if ?b then _ else _] => destruct b
         end; cbn -[js]; eexists; (split; [reflexivity|]);
    intros ev H; try destruct H as [<-|[]]; try destruct H; eauto.
Qed.

(** What is started before a suspension neither opens a browser nor logs
    for the user. *)
Lemma started_is_silent net p :
  forall ev, In ev (getAuthorizationServerMetadata_started net p) ->
             (exists m, ev = DebugLog m) \/ (exists u a, ev = FetchRequest u a).
Proof.
  unfold getAuthorizationServerMetadata_started. intros ev [<-|H]; [eauto|].
  destruct (authorizationServerMetadata p); [destruct H|].
  destruct (URL_origin net _); [|destruct H].
  destruct H as [<-|[<-|[]]]; eauto.
Qed.

(** The run of [redirectToAuthorization]: it returns the completed URL, and
    its effects are the start of the metadata promise, those of computing
    the scope, the prompt, and the attempt to open the browser. *)
Lemma redirectToAuthorization_run net plat p url :
  exists scope,
    outcome (getEffectiveScope p) = Ok scope
    /\ outcome (redirectToAuthorization net plat p url) = Ok (completed_url p scope url)
    /\ events (redirectToAuthorization net plat p url) =
         (getAuthorizationServerMetadata_started net p
            ++ events (getEffectiveScope p)
            ++ [DebugLog (js "Added scope parameter to authorization URL")])
         ++ Log (prompt (URL_toString plat (completed_url p scope url)))
         :: DebugLog (js "Redirecting to authorization URL")
         :: launch plat (URL_toString plat (completed_url p scope url)).
Proof.
  destruct (getEffectiveScope_returns p) as (scope & O & _).
  exists scope. split; [exact O|].
  unfold redirectToAuthorization, completed_url, launch, referenced_path, prompt.
  destruct (getEffectiveScope p) as [t r]. cbn [outcome snd] in O. subst r.
  assert (U : match authorizeResource p with
              | Some r => if truthy r then searchParams_set (js "resource") r url else url
              | None => url
              end
              = match match authorizeResource p with
                      | Some path => if truthy path then Some path else None
                      | None => None
                      end with
                | Some r => searchParams_set (js "resource") r url
                | None => url
                end).
  { destruct (authorizeResource p) as [r|]; [destruct (truthy r)|]; reflexivity. }
  rewrite U. clear U.
  rewrite !bind_Ok. cbn [events outcome fst snd].
  match goal with
  | |- context [sanitizeUrl plat ?h] =>
      destruct (sanitizeUrl plat h) as [target|e];
      [destruct (open plat target) as [[]|e] eqn:E|]
  end;
    cbn -[js COULD_NOT_OPEN getAuthorizationServerMetadata_started];
    rewrite ?E; cbn -[js COULD_NOT_OPEN getAuthorizationServerMetadata_started];
    rewrite <- ?app_assoc; split; reflexivity.
Qed.

Lemma times_opened_app (t1 t2 : trace) :
  times_opened (t1 ++ t2) = times_opened t1 + times_opened t2.
Proof.
  induction t1 as [|ev t1 IH]; [reflexivity|].
  destruct ev; cbn; rewrite IH; reflexivity.
Qed.

Lemma silent_no_open (t : trace) :
  (forall ev, In ev t ->
              (exists m, ev = DebugLog m) \/ (exists u a, ev = FetchRequest u a)) ->
  times_opened t = 0 /\ forall target, ~ In (Open target) t.
Proof.
  induction t as [|ev t IH]; intros H; [split; [reflexivity | intros ? []]|].
  destruct IH as [T N]; [intros e He; apply H; now right|].
  destruct (H ev (or_introl eq_refl)) as [[m ->]|(u & a & ->)];
    (split; [exact T|]);
    intros target [E|E]; try discriminate; exact (N target E).
Qed.

Lemma launch_once (plat : platform) (href : jsstring) :
  times_opened (launch plat href) <= 1
  /\ (forall target, In (Open target) (launch plat href) ->
                     sanitizeUrl plat href = Ok target)
  /\ (launch_fails plat href -> In (Log COULD_NOT_OPEN) (launch plat href)).
Proof.
  unfold launch, launch_fails.
  destruct (sanitizeUrl plat href) as [target|e].
  - destruct (open plat target) as [[]|e]; cbn -[js COULD_NOT_OPEN].
    + split; [lia|]. split; [|discriminate].
      intros x [[= <-]|[E|[]]]; [reflexivity | discriminate].
    + split; [lia|]. split; [|intros _; right; now left].
      intros x [[= <-]|[E|[E|[]]]]; [reflexivity | discriminate | discriminate].
  - cbn -[js COULD_NOT_OPEN]. split; [lia|]. split; [|intros _; now left].
    intros x [E|[E|[]]]; discriminate.
Qed.

(** When the URL passes [sanitizeUrl], [open] is called on the result,
    once, whether it then succeeds or fails. *)
Lemma launch_opens (plat : platform) (href target : jsstring) :
  sanitizeUrl plat href = Ok target ->
  In (Open target) (launch plat href)
  /\ times_opened (launch plat href) = 1.
Proof.
  intros H. unfold launch. rewrite H.
  split; [now left|].
  destruct (open plat target) as [[]|e]; reflexivity.
Qed.

(** C8. [redirectToAuthorization] never throws, whatever becomes of the
    browser: it logs the authorization URL for the user, and [open] is
    called (at most once, on that same URL once sanitised) only after that
    log; when the URL cannot be sanitised or [open] fails, the error is
    caught, the user is told to copy the URL shown above, and the method
    returns normally. The attempt is always made: whenever the URL shown
    passes [sanitizeUrl], [open] is called on it, exactly once. *)
Theorem redirect_shows_url_then_opens_best_effort
    (net : network) (plat : platform) (p : NodeOAuthClientProvider)
    (authorizationUrl : URL) :
  exists url',
    outcome (redirectToAuthorization net plat p authorizationUrl) = Ok url'
    /\ In (Log (prompt (URL_toString plat url')))
          (events (redirectToAuthorization net plat p authorizationUrl))
    /\ (forall target,
          precedes (Log (prompt (URL_toString plat url'))) (Open target)
            (events (redirectToAuthorization net plat p authorizationUrl)))
    /\ times_opened (events (redirectToAuthorization net plat p authorizationUrl)) <= 1
    /\ (forall target,
          In (Open target) (events (redirectToAuthorization net plat p authorizationUrl)) ->
          sanitizeUrl plat (URL_toString plat url') = Ok target)
    /\ (launch_fails plat (URL_toString plat url') ->
          In (Log COULD_NOT_OPEN)
             (events (redirectToAuthorization net plat p authorizationUrl)))
    /\ (forall target,
          sanitizeUrl plat (URL_toString plat url') = Ok target ->
          In (Open target) (events (redirectToAuthorization net plat p authorizationUrl))
          /\ times_opened (events (redirectToAuthorization net plat p authorizationUrl)) = 1).
Proof.
  destruct (redirectToAuthorization_run net plat p authorizationUrl)
    as (scope & Hs & O & E).
  set (before := getAuthorizationServerMetadata_started net p
                   ++ events (getEffectiveScope p)
                   ++ [DebugLog (js "Added scope parameter to authorization URL")]) in *.
  assert (Q : forall ev, In ev before ->
                (exists m, ev = DebugLog m) \/ (exists u a, ev = FetchRequest u a)).
  { intros ev H. unfold before in H.
    apply in_app_or in H as [H|H]; [exact (@started_is_silent net p ev H)|].
    apply in_app_or in H as [H|[<-|[]]]; [|eauto].
    destruct (getEffectiveScope_returns p) as (? & _ & D). left. exact (D ev H). }
  destruct (@silent_no_open before Q) as [T N].
  set (u := completed_url p scope authorizationUrl) in *.
  destruct (launch_once plat (URL_toString plat u)) as (L1 & L2 & L3).
  exists u. split; [exact O|]. rewrite E.
  split; [|split; [|split; [|split; [|split]]]].
  - apply in_or_app. right. now left.
  - intros target. exists before. eexists. split; [reflexivity | exact (N target)].
  - rewrite times_opened_app, T. cbn [times_opened]. lia.
  - intros target H.
    apply in_app_or in H as [H|H]; [destruct (N target H)|].
    destruct H as [H|[H|H]]; [discriminate | discriminate | exact (L2 target H)].
  - intros F. apply in_or_app. right. right. right. exact (L3 F).
  - intros target H.
    destruct (@launch_opens plat (URL_toString plat u) target H) as [I1 I2].
    split.
    + apply in_or_app. right. right. right. exact I1.
    + rewrite times_opened_app, T. cbn [times_opened]. rewrite I2. reflexivity.
Qed.

Lemma redirect_shows_url_then_opens_best_effort_witness :
  exists url',
    outcome (redirectToAuthorization net_404 headless
               (provider_with None None None) authorize_url) = Ok url'
    /\ In (Log COULD_NOT_OPEN)
          (events (redirectToAuthorization net_404 headless
                     (provider_with None None None) authorize_url))
    /\ In (Open (URL_toString headless url'))
          (events (redirectToAuthorization net_404 headless
                     (provider_with None None None) authorize_url))
    /\ times_opened (events (redirectToAuthorization net_404 headless
                               (provider_with None None None) authorize_url)) = 1.
Proof.
  destruct (redirect_shows_url_then_opens_best_effort net_404 headless
              (provider_with None None None) authorize_url)
    as (u & O & _ & _ & _ & _ & F & A).
  exists u. split; [exact O|]. split.
  - apply F. injection O as <-. vm_compute. reflexivity.
  - apply A. reflexivity.
Defined.

(** C10. The effective scope follows a fixed four-level priority: a scope
    of [staticOAuthClientMetadata] that is not all white space wins;
    otherwise such a scope of the registered client information; otherwise
    the server's [scopes_supported], when non-empty, joined with single
    spaces; otherwise ['openid email profile']. That scope is the [scope]
    of the client metadata and the one [scope] parameter of the
    authorization URL that [redirectToAuthorization] shows. *)
Theorem effective_scope_priority (p : NodeOAuthClientProvider) :
  exists scope,
    outcome (getEffectiveScope p) = Ok scope
    /\ (forall s, scope_of (staticOAuthClientMetadata p) = Some s ->
                  non_whitespace s -> scope = s)
    /\ (blank (scope_of (staticOAuthClientMetadata p)) ->
        forall s, scope_of (_clientInfo p) = Some s ->
                  non_whitespace s -> scope = s)
    /\ (blank (scope_of (staticOAuthClientMetadata p)) ->
        blank (scope_of (_clientInfo p)) ->
        forall x r, server_scopes p = Some (x :: r) ->
                    scope = join (js " ") (x :: r))
    /\ (blank (scope_of (staticOAuthClientMetadata p)) ->
        blank (scope_of (_clientInfo p)) ->
        server_scopes p = None \/ server_scopes p = Some [] ->
        scope = js "openid email profile")
    /\ (exists o, outcome (clientMetadata p) = Ok o
                  /\ obj_get "scope" o = Some (VString scope))
    /\ (forall net plat authorizationUrl,
          exists url',
            outcome (redirectToAuthorization net plat p authorizationUrl) = Ok url'
            /\ searchParams_get (js "scope") url' = Some scope
            /\ List.length (filter (fun kv => jsstring_eqb (fst kv) (js "scope"))
                              (searchParams url')) = 1
            /\ In (Log (prompt (URL_toString plat url')))
                  (events (redirectToAuthorization net plat p authorizationUrl))).
Proof.
  destruct (getEffectiveScope_returns p) as (scope & O & _).
  exists scope. split; [exact O|].
  assert (P : match nonblank (scope_of (staticOAuthClientMetadata p)),
                    nonblank (scope_of (_clientInfo p)),
                    server_scopes p with
              | true, _, _ => scope = string_of (scope_of (staticOAuthClientMetadata p))
              | false, true, _ => scope = string_of (scope_of (_clientInfo p))
              | false, false, Some (x :: r) => scope = join (js " ") (x :: r)
              | false, false, _ => scope = js "openid email profile"
              end).
  { revert O. unfold getEffectiveScope, server_scopes, supported_scopes.
    destruct (nonblank (scope_of (staticOAuthClientMetadata p)));
      [now intros [= <-]|].
    destruct (nonblank (scope_of (_clientInfo p))); [now intros [= <-]|].
    destruct (authorizationServerMetadata p) as [m|]; [|now intros [= <-]].
    destruct (scopes_supported m) as [[|x r]|]; now intros [= <-]. }
  split; [|split; [|split; [|split; [|split]]]].
  - intros s E N. rewrite E in P.
    apply nonblank_iff in N. rewrite N in P. exact P.
  - intros B s E N. apply nonblank_blank in B. rewrite B, E in P.
    apply nonblank_iff in N. rewrite N in P. exact P.
  - intros B1 B2 x r E. apply nonblank_blank in B1, B2.
    now rewrite B1, B2, E in P.
  - intros B1 B2 E. apply nonblank_blank in B1, B2.
    rewrite B1, B2 in P. now destruct E as [E|E]; rewrite E in P.
  - unfold clientMetadata. rewrite outcome_bind, O. cbn [outcome ret snd].
    eexists. split; [reflexivity|]. apply obj_get_set.
  - intros net plat authorizationUrl.
    destruct (redirectToAuthorization_run net plat p authorizationUrl)
      as (scope' & O' & R & E).
    assert (scope' = scope) by congruence. subst scope'.
    exists (completed_url p scope authorizationUrl).
    split; [exact R|]. split; [apply params_get_set|].
    split; [apply params_set_once|].
    rewrite E. apply in_or_app. right. now left.
Qed.

Lemma effective_scope_priority_witness :
  outcome (getEffectiveScope
             (provider_with (Some [("scope"%string, VString (js "read write"))])
                (Some [("scope"%string, VString (js "registered"))])
                (Some example_metadata)))
    = Ok (js "read write")
  /\ outcome (getEffectiveScope
                (provider_with (Some [("scope"%string, VString (js "  "))])
                   (Some [("scope"%string, VString (js "registered"))])
                   (Some example_metadata)))
     = Ok (js "registered")
  /\ outcome (getEffectiveScope
                (provider_with (Some [("scope"%string, VString (js "  "))])
                   None (Some example_metadata)))
     = Ok (js "openid email profile custom:read")
  /\ outcome (getEffectiveScope (provider_with None None None))
     = Ok (js "openid email profile").
Proof.
  split; [|split; [|split]].
  - destruct (effective_scope_priority
                (provider_with (Some [("scope"%string, VString (js "read write"))])
                   (Some [("scope"%string, VString (js "registered"))])
                   (Some example_metadata)))
      as (scope & O & P1 & _).
    rewrite O. f_equal. apply P1; [reflexivity|].
    exists 114%N. split; [now left | reflexivity].
  - destruct (effective_scope_priority
                (provider_with (Some [("scope"%string, VString (js "  "))])
                   (Some [("scope"%string, VString (js "registered"))])
                   (Some example_metadata)))
      as (scope & O & _ & P2 & _).
    rewrite O. f_equal. apply P2.
    + intros s [= <-] (c & [<-|[<-|[]]] & W); discriminate.
    + reflexivity.
    + exists 114%N. split; [now left | reflexivity].
  - destruct (effective_scope_priority
                (provider_with (Some [("scope"%string, VString (js "  "))])
                   None (Some example_metadata)))
      as (scope & O & _ & _ & P3 & _).
    rewrite O. f_equal.
    apply (fun B1 B2 =>
             P3 B1 B2 (js "openid") [js "email"; js "profile"; js "custom:read"]).
    + intros s [= <-] (c & [<-|[<-|[]]] & W); discriminate.
    + intros s [=].
    + reflexivity.
  - destruct (effective_scope_priority (provider_with None None None))
      as (scope & O & _ & _ & _ & P4 & _).
    rewrite O. f_equal. apply P4.
    + intros s [=].
    + intros s [=].
    + now left.
Defined.

(* ===================================================================== *)
(** * Fetching the authorization server metadata *)
(* ===================================================================== *)

(** A server URL the [URL] constructor rejects: the error leaves the
    function, before any request. *)
Lemma fetchAuthorizationServerMetadata_invalid_url net serverUrl customAgent e :
  URL_origin net serverUrl = Throw e ->
  fetchAuthorizationServerMetadata net serverUrl customAgent = ([], Throw e).
Proof.
  intros H. unfold fetchAuthorizationServerMetadata, getMetadataUrl.
  rewrite H. reflexivity.
Qed.

(** C9 (as stated, at a string without a scheme). The function is given
    [example.com/mcp], which is not an absolute URL: [new URL] throws in
    [getMetadataUrl], outside the [try], and the call ends with that
    error. *)
Lemma fetchAuthorizationServerMetadata_throws_on_invalid_url :
  outcome (fetchAuthorizationServerMetadata net_ok (js "example.com/mcp") None)
  = Throw invalid_url.
Proof. reflexivity. Qed.

(** C9 (amended). For a server URL the [URL] constructor accepts, the
    function never throws: it returns the parsed metadata exactly when the
    response is ok and its body parses to a value other than [null], and
    [undefined] for every non-ok status, for a rejected fetch (network
    error or timeout) and for a body that fails to parse; for a string the
    constructor rejects, the call ends with the constructor's error and no
    request is made. *)
Theorem fetchAuthorizationServerMetadata_total_on_urls
    (net : network) (serverUrl : jsstring) (customAgent : option Agent) :
  match URL_origin net serverUrl with
  | Ok origin =>
      outcome (fetchAuthorizationServerMetadata net serverUrl customAgent)
        = Ok (metadata_of net (origin ++ metadataPath) customAgent)
      /\ (forall m,
            metadata_of net (origin ++ metadataPath) customAgent = Some m <->
            exists response,
              fetch net (origin ++ metadataPath) customAgent = Ok response
              /\ ok response = true /\ json response = JsonValue m)
      /\ In (FetchRequest (origin ++ metadataPath) customAgent)
            (events (fetchAuthorizationServerMetadata net serverUrl customAgent))
  | Throw e =>
      outcome (fetchAuthorizationServerMetadata net serverUrl customAgent) = Throw e
      /\ events (fetchAuthorizationServerMetadata net serverUrl customAgent) = []
  end.
Proof.
  destruct (URL_origin net serverUrl) as [origin|e] eqn:U.
  - unfold fetchAuthorizationServerMetadata, getMetadataUrl, metadata_of, read_metadata.
    rewrite U. cbn [bind ret app].
    destruct (fetch net (origin ++ metadataPath) customAgent) as [response|e] eqn:F.
    + destruct (ok response) eqn:K; cbn [negb].
      * destruct (json response) as [e| |m] eqn:J; cbn -[js]; repeat split;
          try (intros [= <-]; eauto); try (right; now left);
          try (intros (r & [= <-] & _ & H); congruence).
      * destruct (status response =? 404)%Z; cbn -[js]; repeat split;
          try discriminate; try (right; now left);
          intros (r & [= <-] & H & _); congruence.
    + cbn -[js]. repeat split; try discriminate; try (right; now left).
      intros (r & [=] & _).
  - now rewrite (fetchAuthorizationServerMetadata_invalid_url net serverUrl customAgent U).
Qed.

Example metadata_of_example_server :
  fetchAuthorizationServerMetadata net_ok (js "https://example.com/mcp") None
  = ([DebugLog (js "Fetching authorization server metadata");
      FetchRequest (js "https://example.com/.well-known/oauth-authorization-server") None;
      DebugLog (js "Successfully fetched authorization server metadata")],
     Ok (Some example_metadata)).
Proof. reflexivity. Qed.

Example metadata_of_404 :
  outcome (fetchAuthorizationServerMetadata net_404 (js "https://localhost:8080/mcp") None)
  = Ok None.
Proof. reflexivity. Qed.

(* ===================================================================== *)
(** * The follower and the settle margin *)
(* ===================================================================== *)









(* ===================================================================== *)
(** * Transport negotiation *)
(* ===================================================================== *)

(** With two calls of fuel or more, the run ends, after at most two
    attempts of distinct kinds. *)
Lemma connect_bounded fuel remote strategy customAgent :
  2 <= fuel ->
  exists tried r,
    connectToRemoteServer fuel remote 0 strategy [] customAgent = Some (tried, r)
    /\ List.length tried <= 2 /\ NoDup tried.
Proof.
  intros F. destruct fuel as [|[|fuel]]; try lia. clear F.
  assert (N1 : forall k : TransportKind, NoDup [k]).
  { intros k. constructor; [intros [] | constructor]. }
  assert (N2 : NoDup [StreamableHTTP; EventStream]).
  { constructor; [intros [H|[]]; discriminate | apply N1]. }
  assert (N3 : NoDup [EventStream; StreamableHTTP]).
  { constructor; [intros [H|[]]; discriminate | apply N1]. }
  destruct strategy;
    cbn [connectToRemoteServer uses_sse shouldAttemptFallback has_reason existsb];
    repeat match goal with
           | |- context [match remote ?n ?k with _ => _ end] =>
               destruct (remote n k)
           end;
    do 2 eexists; (split; [reflexivity | split; [cbn; lia | auto]]).
Qed.

(** C4. Under [http-first], when the streaming-HTTP transport is rejected
    (rejection status or negotiation failure) the run attempts the
    event-stream transport, once, and ends with what that attempt gives;
    the HTTP transport is attempted exactly once. For every strategy and
    every remote the run ends after at most two attempts, of distinct
    kinds: there is no retry loop between transport kinds. *)
Theorem http_first_falls_back_once
    (fuel : nat) (remote : Remote) (customAgent : option Agent) :
  2 <= fuel ->
  (negative (remote 0 StreamableHTTP) = true ->
     connectToRemoteServer fuel remote 0 http_first [] customAgent =
       Some ([StreamableHTTP; EventStream],
             final_attempt remote 1 EventStream customAgent)
     /\ attempts_of StreamableHTTP [StreamableHTTP; EventStream] = 1
     /\ attempts_of EventStream [StreamableHTTP; EventStream] = 1)
  /\ (forall strategy,
        exists tried r,
          connectToRemoteServer fuel remote 0 strategy [] customAgent
            = Some (tried, r)
          /\ List.length tried <= 2 /\ NoDup tried).
Proof.
  intros F. split.
  - intros N. destruct fuel as [|[|fuel]]; try lia.
    cbn [connectToRemoteServer uses_sse shouldAttemptFallback has_reason existsb].
    unfold final_attempt.
    destruct (remote 0 StreamableHTTP); try discriminate;
      destruct (remote 1 EventStream); repeat split.
  - intros strategy. now apply connect_bounded.
Qed.

Lemma http_first_falls_back_once_witness :
  connectToRemoteServer 5
    (fun n k => match k with
                | StreamableHTTP => RejectionStatus 405
                | EventStream => Accepted
                end)
    0 http_first [] None
  = Some ([StreamableHTTP; EventStream], Ok (mkTransportSession EventStream None)).
Proof.
  apply (proj1 (http_first_falls_back_once
                  (fuel := 5)
                  (fun n k => match k with
                              | StreamableHTTP => RejectionStatus 405
                              | EventStream => Accepted
                              end)
                  None ltac:(lia))).
  reflexivity.
Defined.

(* ===================================================================== *)
(** * The relay *)
(* ===================================================================== *)







(* ===================================================================== *)
(** * The authorization lock *)
(* ===================================================================== *)

Lemma set_role_same i r f : set_role i r f i = r.
Proof. unfold set_role. now rewrite Nat.eqb_refl. Qed.

Lemma set_role_other i j r f : j <> i -> set_role i r f j = f j.
Proof.
  intros H. unfold set_role. destruct (j =? i) eqn:E; [|reflexivity].
  apply Nat.eqb_eq in E. contradiction.
Qed.

Lemma leader_after_set_role i j r f :
  r <> Leader -> set_role i r f j = Leader -> j <> i /\ f j = Leader.
Proof.
  intros R H. unfold set_role in H.
  destruct (j =? i) eqn:E; [contradiction|].
  apply Nat.eqb_neq in E. auto.
Qed.

(** An instance that leads keeps others from taking the lock. *)
Lemma leader_blocks_acquisition s i j :
  leader_holds_lock s -> role s i = Leader ->
  lock_state (now s) j (lock s) <> Unlocked.
Proof.
  intros Inv L. destruct (Inv i L) as (e & E & T). rewrite E.
  unfold lock_state. cbn [expiry holder].
  destruct (e <? now s) eqn:X; [apply Nat.ltb_lt in X; lia|].
  destruct (i =? j); discriminate.
Qed.

(** Each step keeps the lock with the leader. *)
Lemma step_keeps_leader_lock a s s' :
  leader_holds_lock s -> step a s = Some s' -> leader_holds_lock s'.
Proof.
  intros Inv H. destruct a as [i timeout|i lifetime|i|i|i|]; cbn [step] in H.
  - (* Call *)
    destruct (role s i) eqn:R; try discriminate.
    destruct (non_expired (now s) (tokenSet s)).
    + injection H as <-. intros j L. cbn in *.
      apply leader_after_set_role in L as [_ L]; [auto | discriminate].
    + destruct (lock_state (now s) i (lock s)) eqn:V; injection H as <-;
        intros j L; cbn in *.
      * destruct (Nat.eq_dec j i) as [->|N].
        -- exists (now s + timeout). split; [reflexivity | lia].
        -- rewrite set_role_other in L by exact N.
           exfalso. exact (@leader_blocks_acquisition s j i Inv L V).
      * apply leader_after_set_role in L as [_ L]; [auto | discriminate].
      * apply leader_after_set_role in L as [_ L]; [auto | discriminate].
  - (* Complete *)
    destruct (role s i) eqn:R; try discriminate. injection H as <-.
    intros j L. cbn in *.
    apply leader_after_set_role in L as [N L]; [|discriminate].
    destruct (Inv i R) as (e & E & _). destruct (Inv j L) as (e' & E' & _).
    congruence.
  - (* Fail *)
    destruct (role s i) eqn:R; try discriminate. injection H as <-.
    intros j L. cbn in *.
    apply leader_after_set_role in L as [N L]; [|discriminate].
    destruct (Inv i R) as (e & E & _). destruct (Inv j L) as (e' & E' & _).
    congruence.
  - (* Crash *)
    injection H as <-. intros j L. cbn in *.
    apply leader_after_set_role in L as [_ L]; [auto | discriminate].
  - (* Poll *)
    destruct (role s i) eqn:R; try discriminate.
    destruct (non_expired (now s) (tokenSet s));
      [|destruct (deadline <=? now s)]; injection H as <-;
      intros j L; cbn in *; try (now apply Inv);
      apply leader_after_set_role in L as [_ L]; auto; discriminate.
  - (* Tick *)
    destruct (lock s) as [le|] eqn:K.
    + destruct (is_Leader (role s (holder le)) && (expiry le <=? now s)) eqn:G;
        [discriminate|]. injection H as <-.
      intros j L. cbn in *. destruct (Inv j L) as (e & E & T).
      exists e. split; [congruence|].
      assert (le = mkLease j e) by congruence. subst le. cbn in G.
      rewrite L in G. cbn in G. apply Nat.leb_gt in G. lia.
    + injection H as <-. intros j L. cbn in *.
      destruct (Inv j L) as (e & E & _). congruence.
Qed.

Lemma exec_keeps_leader_lock sched :
  forall s s', leader_holds_lock s -> exec sched s = Some s' -> leader_holds_lock s'.
Proof.
  induction sched as [|a rest IH]; intros s s' Inv H; cbn [exec] in H.
  - now injection H as <-.
  - destruct (step a s) as [s1|] eqn:S1; [|discriminate].
    exact (IH s1 s' (@step_keeps_leader_lock a s s1 Inv S1) H).
Qed.

Lemma reachable_leader_holds_lock s : reachable s -> leader_holds_lock s.
Proof.
  intros (t0 & stored & sched & H).
  apply (@exec_keeps_leader_lock sched (initial t0 stored) s); [|exact H].
  intros i L. discriminate.
Qed.

(** After the leader, every other instance that calls becomes a follower
    and nothing else changes. *)
Lemma later_callers_follow (first : pid) (e : time) :
  forall (rest : list (pid * time)) (s : System),
    lock s = Some (mkLease first e) -> now s <= e ->
    non_expired (now s) (tokenSet s) = false ->
    ~ In first (map fst rest) -> NoDup (map fst rest) ->
    (forall j, In j (map fst rest) -> role s j = NotStarted) ->
    exists s',
      exec (calls rest) s = Some s'
      /\ now s' = now s /\ lock s' = lock s /\ tokenSet s' = tokenSet s
      /\ effects s' = effects s
      /\ (forall j, In j (map fst rest) -> is_Follower (role s' j) = true)
      /\ (forall j, ~ In j (map fst rest) -> role s' j = role s j).
Proof.
  induction rest as [|[j timeout] rest IH]; intros s K T X F D N.
  - exists s. repeat split; auto; intros j [].
  - cbn [calls map exec step fst snd] in *.
    rewrite (N j (or_introl eq_refl)), X, K.
    unfold lock_state. cbn [expiry holder].
    destruct (e <? now s) eqn:Y; [apply Nat.ltb_lt in Y; lia|].
    assert (first <> j) by (intros ->; apply F; now left).
    destruct (first =? j) eqn:Z; [apply Nat.eqb_eq in Z; contradiction|].
    inversion D as [|? ? D1 D2]; subst.
    destruct (IH (mkSystem (now s) (Some (mkLease first e)) (tokenSet s)
                    (set_role j (Follower (now s + timeout)) (role s)) (effects s)))
      as (s' & E & A1 & A2 & A3 & A4 & A5 & A6); cbn [lock now tokenSet role effects];
      auto.
    + intros Q. apply F. now right.
    + intros k Hk. rewrite set_role_other; [apply N; now right|].
      intros ->. contradiction.
    + exists s'. cbn [lock now tokenSet role effects] in *.
      unfold calls in E. rewrite E. repeat split; auto.
      * intros k [<-|Hk]; [|now apply A5].
        rewrite A6 by exact D1. now rewrite set_role_same.
      * intros k Hk. rewrite A6 by (intros Q; apply Hk; now right).
        apply set_role_other. intros ->. apply Hk. now left.
Qed.

Lemma filter_none {A} (f : A -> bool) (l : list A) :
  (forall x, In x l -> f x = false) -> filter f l = [].
Proof.
  induction l as [|x l IH]; intros H; [reflexivity|]. cbn.
  rewrite (H x (or_introl eq_refl)). apply IH. intros y Hy. apply H. now right.
Qed.

Lemma filter_all {A} (f : A -> bool) (l : list A) :
  (forall x, In x l -> f x = true) -> filter f l = l.
Proof.
  induction l as [|x l IH]; intros H; [reflexivity|]. cbn.
  rewrite (H x (or_introl eq_refl)). f_equal. apply IH. intros y Hy. apply H. now right.
Qed.

(** C1. In every state the instances can reach, whatever the order of
    their steps (calls, completions, failures, crashes, polls, the passing
    of time), at most one instance leads, and the lock is the leader's.
    With any number of instances calling [initializeAuth] together and no
    cached token, the first to take its step acquires the lock, binds the
    listener and launches the browser, once each, and every other one is a
    follower: exactly one leader. *)
Theorem at_most_one_leader :
  (forall s, reachable s ->
     forall i j, role s i = Leader -> role s j = Leader -> i = j)
  /\ (forall t0 stored first timeout rest,
        non_expired t0 stored = false ->
        NoDup (first :: map fst rest) ->
        exists s,
          exec (calls ((first, timeout) :: rest)) (initial t0 stored) = Some s
          /\ leaders (first :: map fst rest) s = [first]
          /\ followers (first :: map fst rest) s = map fst rest
          /\ effects s = [AcquireLock first; BindListener first; LaunchBrowser first]
          /\ count_effect is_AcquireLock (effects s) = 1
          /\ count_effect is_BindListener (effects s) = 1
          /\ count_effect is_LaunchBrowser (effects s) = 1).
Proof.
  split.
  - intros s R i j Li Lj.
    pose proof (reachable_leader_holds_lock R) as Inv.
    destruct (Inv i Li) as (e & E & _). destruct (Inv j Lj) as (e' & E' & _).
    congruence.
  - intros t0 stored first timeout rest X D.
    inversion D as [|? ? D1 D2]; subst.
    cbn [calls map exec step fst snd initial role now tokenSet lock effects].
    rewrite X. cbn [lock_state app].
    destruct (@later_callers_follow first (t0 + timeout) rest
                (mkSystem t0 (Some (mkLease first (t0 + timeout))) stored
                   (set_role first Leader (fun _ => NotStarted))
                   [AcquireLock first; BindListener first; LaunchBrowser first]))
      as (s & E & A1 & A2 & A3 & A4 & A5 & A6);
      cbn [lock now tokenSet role effects]; auto; try lia.
    + intros j Hj. apply set_role_other. intros ->. contradiction.
    + exists s. cbn [lock now tokenSet role effects] in *.
      split; [exact E|].
      assert (L : role s first = Leader).
      { rewrite A6 by exact D1. apply set_role_same. }
      unfold leaders, followers. cbn [filter]. rewrite L. cbn [is_Leader is_Follower].
      rewrite filter_none, filter_all, A4.
      * repeat split; reflexivity.
      * exact A5.
      * intros j Hj. specialize (A5 j Hj). now destruct (role s j).
Qed.

Lemma at_most_one_leader_witness :
  exists s,
    exec (calls [(7, 30); (3, 30); (9, 30)]) (initial 100 None) = Some s
    /\ leaders [7; 3; 9] s = [7]
    /\ followers [7; 3; 9] s = [3; 9]
    /\ count_effect is_LaunchBrowser (effects s) = 1.
Proof.
  destruct (proj2 at_most_one_leader 100 None 7 30 [(3, 30); (9, 30)])
    as (s & E & L & F & _ & _ & _ & B).
  - reflexivity.
  - repeat constructor; cbn; intuition lia.
  - exists s. auto.
Defined.

(* ===================================================================== *)
(** * More on the TLS identity *)
(* ===================================================================== *)

(** X1. [createTLSAgent] reads the referenced files in the order
    certificate, key, CA, and stops at the first one it cannot read: the
    files after it are not touched. *)
Theorem tls_files_read_in_order_until_failure
    (fs : filesystem) (cfg : TLSClientCertConfig) :
  files_read (events (createTLSAgent fs (Some cfg)))
  = through_first_unreadable fs (referenced cfg).
Proof.
  unfold createTLSAgent, referenced.
  load_step fs (cert cfg); rewrite ?F.
  - load_step fs (key cfg); rewrite ?F0.
    + load_step fs (ca cfg); rewrite ?F1; finish_build cfg.
    + finish_build cfg.
    + load_step fs (ca cfg); rewrite ?F0; finish_build cfg.
  - finish_build cfg.
  - load_step fs (key cfg); rewrite ?F.
    + load_step fs (ca cfg); rewrite ?F0; finish_build cfg.
    + finish_build cfg.
    + load_step fs (ca cfg); rewrite ?F; finish_build cfg.
Qed.

(** X2. The passphrase is never written to a log: two configurations that
    differ only in the (non-empty) passphrase produce the same lines in
    the user log and in the debug log, and read the same files. *)
Theorem tls_log_hides_passphrase
    (fs : filesystem) (c k a : option jsstring) (r : option bool)
    (p1 p2 : jsstring) :
  truthy p1 = true -> truthy p2 = true ->
  log_lines (events (createTLSAgent fs
                       (Some (mkTLSClientCertConfig c k a (Some p1) r))))
  = log_lines (events (createTLSAgent fs
                         (Some (mkTLSClientCertConfig c k a (Some p2) r))))
  /\ files_read (events (createTLSAgent fs
                           (Some (mkTLSClientCertConfig c k a (Some p1) r))))
     = files_read (events (createTLSAgent fs
                             (Some (mkTLSClientCertConfig c k a (Some p2) r)))).
Proof.
  intros T1 T2. unfold createTLSAgent.
  cbn [cert key ca passphrase rejectUnauthorized truthy_opt]. rewrite T1, T2.
  load_step fs c; [load_step fs k; [load_step fs a | | load_step fs a]
                  | | load_step fs k; [load_step fs a | | load_step fs a]];
    destruct r as [[|]|]; cbn -[js WARNING_verification_disabled];
    split; reflexivity.
Qed.

Lemma tls_log_hides_passphrase_witness :
  log_lines (events (createTLSAgent disk_with_cert_and_key
                       (Some (mkTLSClientCertConfig (Some (js "/certs/client.crt"))
                                (Some (js "/certs/client.key")) None
                                (Some (js "hunter2")) None))))
  = log_lines (events (createTLSAgent disk_with_cert_and_key
                         (Some (mkTLSClientCertConfig (Some (js "/certs/client.crt"))
                                  (Some (js "/certs/client.key")) None
                                  (Some (js "correct horse")) None)))).
Proof.
  apply (proj1 (@tls_log_hides_passphrase disk_with_cert_and_key
                  (Some (js "/certs/client.crt")) (Some (js "/certs/client.key"))
                  None None (js "hunter2") (js "correct horse") eq_refl eq_refl)).
Defined.

Ltac load_both fs1 fs2 H field :=
  let R := fresh "R" in
  destruct (referenced_path field) as [?|] eqn:R;
  [ match type of R with
    | _ = Some ?p =>
        let F1 := fresh "F" in
        let F2 := fresh "G" in
        let S := fresh "S" in
        pose proof (H p) as S;
        destruct (fs1 p) eqn:F1; destruct (fs2 p) eqn:F2;
        try contradiction;
        [ rewrite (load_file_loaded fs1 _ _ _ _ R F1),
                  (load_file_loaded fs2 _ _ _ _ R F2)
        | subst;
          rewrite (load_file_failed fs1 _ _ _ _ R F1),
                  (load_file_failed fs2 _ _ _ _ R F2) ]
    end
  | rewrite (load_file_skip fs1 _ _ _ _ R), (load_file_skip fs2 _ _ _ _ R) ];
  cbn -[js WARNING_verification_disabled load_file].

(** X3. What the certificate, key and CA files hold never reaches a log:
    on two file systems that agree on which files can be read (and on the
    error of those that cannot), the build writes the same lines to the
    user log and the same messages to the debug log, reads the same files
    and ends the same way, whatever the contents of the files. *)
Theorem tls_log_hides_file_contents
    (fs1 fs2 : filesystem) (cfg : TLSClientCertConfig) :
  same_readability fs1 fs2 ->
  log_lines (events (createTLSAgent fs1 (Some cfg)))
  = log_lines (events (createTLSAgent fs2 (Some cfg)))
  /\ files_read (events (createTLSAgent fs1 (Some cfg)))
     = files_read (events (createTLSAgent fs2 (Some cfg)))
  /\ match outcome (createTLSAgent fs1 (Some cfg)),
           outcome (createTLSAgent fs2 (Some cfg)) with
     | Ok _, Ok _ => True
     | Throw e1, Throw e2 => e1 = e2
     | _, _ => False
     end.
Proof.
  intros H. unfold createTLSAgent.
  load_both fs1 fs2 H (cert cfg);
    [ load_both fs1 fs2 H (key cfg);
      [ load_both fs1 fs2 H (ca cfg) | | load_both fs1 fs2 H (ca cfg) ]
    | | load_both fs1 fs2 H (key cfg);
      [ load_both fs1 fs2 H (ca cfg) | | load_both fs1 fs2 H (ca cfg) ] ];
    destruct (passphrase cfg) as [[|? ?]|];
    destruct (rejectUnauthorized cfg) as [[|]|];
    cbn -[js WARNING_verification_disabled]; repeat split; reflexivity.
Qed.

Lemma tls_log_hides_file_contents_witness :
  log_lines (events (createTLSAgent disk_with_cert_and_key (Some cfg_cert_and_key)))
  = log_lines (events (createTLSAgent
                         (fun path => match disk_with_cert_and_key path with
                                      | Ok b => Ok (b ++ [10]%N)
                                      | Throw e => Throw e
                                      end)
                         (Some cfg_cert_and_key))).
Proof.
  refine (proj1 (@tls_log_hides_file_contents disk_with_cert_and_key
                   (fun path => match disk_with_cert_and_key path with
                                | Ok b => Ok (b ++ [10]%N)
                                | Throw e => Throw e
                                end)
                   cfg_cert_and_key _)).
  intros path. destruct (disk_with_cert_and_key path); [exact I | reflexivity].
Defined.

(* ===================================================================== *)
(** * More on the authorization server metadata *)
(* ===================================================================== *)

Lemma requests_app (t1 t2 : trace) :
  requests (t1 ++ t2) = requests t1 ++ requests t2.
Proof.
  induction t1 as [|ev t1 IH]; [reflexivity|].
  destruct ev; cbn; rewrite IH; reflexivity.
Qed.

Lemma user_log_app (t1 t2 : trace) :
  user_log (t1 ++ t2) = user_log t1 ++ user_log t2.
Proof.
  induction t1 as [|ev t1 IH]; [reflexivity|].
  destruct ev; cbn; rewrite IH; reflexivity.
Qed.

(** The whole run of [fetchAuthorizationServerMetadata]. *)
Lemma fetchAuthorizationServerMetadata_run net serverUrl customAgent :
  outcome (fetchAuthorizationServerMetadata net serverUrl customAgent)
    = match URL_origin net serverUrl with
      | Ok origin => Ok (metadata_of net (origin ++ metadataPath) customAgent)
      | Throw e => Throw e
      end
  /\ requests (events (fetchAuthorizationServerMetadata net serverUrl customAgent))
     = match URL_origin net serverUrl with
       | Ok origin => [(origin ++ metadataPath, customAgent)]
       | Throw _ => []
       end
  /\ user_log (events (fetchAuthorizationServerMetadata net serverUrl customAgent)) = [].
Proof.
  unfold fetchAuthorizationServerMetadata, getMetadataUrl, metadata_of, read_metadata.
  destruct (URL_origin net serverUrl) as [origin|e]; [|repeat split].
  cbn [bind ret app].
  destruct (fetch net (origin ++ metadataPath) customAgent) as [response|e].
  - destruct (ok response); cbn [negb].
    + destruct (json response); cbn -[js]; repeat split.
    + destruct (status response =? 404)%Z; cbn -[js]; repeat split.
  - cbn -[js]. repeat split.
Qed.

(** X4. [fetchAuthorizationServerMetadata] makes exactly one request, to
    the well-known path under the origin of the server URL and through the
    agent it was given, and none when the URL is rejected; whatever
    happens, it writes nothing to the user log. *)
Theorem metadata_fetch_makes_one_request
    (net : network) (serverUrl : jsstring) (customAgent : option Agent) :
  requests (events (fetchAuthorizationServerMetadata net serverUrl customAgent))
    = match URL_origin net serverUrl with
      | Ok origin => [(origin ++ metadataPath, customAgent)]
      | Throw _ => []
      end
  /\ user_log (events (fetchAuthorizationServerMetadata net serverUrl customAgent)) = [].
Proof.
  destruct (fetchAuthorizationServerMetadata_run net serverUrl customAgent)
    as (_ & R & U).
  now split.
Qed.

(** The run of [getAuthorizationServerMetadata] on an instance that holds
    no metadata: the fetch, whose result (also [undefined]) is assigned,
    and a rejection swallowed. *)
Lemma getAuthorizationServerMetadata_fetches net p :
  authorizationServerMetadata p = None ->
  outcome (getAuthorizationServerMetadata net p)
    = Ok (prefetched net (Types.serverUrl (options p)) (customAgent p),
          match URL_origin net (Types.serverUrl (options p)) with
          | Ok _ => set_authorizationServerMetadata
                      (prefetched net (Types.serverUrl (options p)) (customAgent p)) p
          | Throw _ => p
          end)
  /\ requests (events (getAuthorizationServerMetadata net p))
     = requests (events (fetchAuthorizationServerMetadata net
                           (Types.serverUrl (options p)) (customAgent p))).
Proof.
  intros H. unfold getAuthorizationServerMetadata, prefetched. rewrite H.
  destruct (fetchAuthorizationServerMetadata_run net
              (Types.serverUrl (options p)) (customAgent p)) as (O & _ & _).
  destruct (fetchAuthorizationServerMetadata net _ _) as [t r].
  cbn [outcome snd events fst] in *. subst r.
  destruct (URL_origin net (Types.serverUrl (options p))) as [origin|e].
  - destruct (metadata_of net (origin ++ metadataPath) (customAgent p)) as [m|];
      cbn -[js];
      try match goal with
          | |- context [match scopes_supported ?x with _ => _ end] =>
              destruct (scopes_supported x)
          end;
      cbn -[js]; rewrite ?requests_app, ?app_nil_r; split; reflexivity.
  - cbn -[js]. rewrite ?requests_app, ?app_nil_r. split; reflexivity.
Qed.

(** The requests of [getAuthorizationServerMetadata] on an instance that
    holds no metadata: the one of the fetch, to the well-known path under
    the origin of the server URL and through the agent of the instance. *)
Lemma getAuthorizationServerMetadata_requests net p :
  authorizationServerMetadata p = None ->
  requests (events (getAuthorizationServerMetadata net p))
  = match URL_origin net (Types.serverUrl (options p)) with
    | Ok origin => [(origin ++ metadataPath, customAgent p)]
    | Throw _ => []
    end.
Proof.
  intros H.
  destruct (getAuthorizationServerMetadata_fetches net p H) as [_ R].
  rewrite R.
  exact (proj1 (proj2 (fetchAuthorizationServerMetadata_run net
                         (Types.serverUrl (options p)) (customAgent p)))).
Qed.

(** X5. The metadata is cached in memory: [getAuthorizationServerMetadata]
    never throws; an instance that holds metadata returns it without any
    request; metadata obtained by one call is returned by the next call
    without a request, whatever the network does then; an instance that
    holds none makes the request of the fetch (one, or none when the
    server URL is rejected); a fetch that gives nothing leaves nothing
    behind, so that the next call makes that request again. *)
Theorem metadata_cached_in_memory (net : network) (p : NodeOAuthClientProvider) :
  (exists r p', outcome (getAuthorizationServerMetadata net p) = Ok (r, p'))
  /\ (forall m,
        authorizationServerMetadata p = Some m ->
        outcome (getAuthorizationServerMetadata net p) = Ok (Some m, p)
        /\ requests (events (getAuthorizationServerMetadata net p)) = [])
  /\ (forall m p',
        outcome (getAuthorizationServerMetadata net p) = Ok (Some m, p') ->
        forall net',
          outcome (getAuthorizationServerMetadata net' p') = Ok (Some m, p')
          /\ requests (events (getAuthorizationServerMetadata net' p')) = [])
  /\ (forall p',
        outcome (getAuthorizationServerMetadata net p) = Ok (None, p') ->
        authorizationServerMetadata p' = None)
  /\ (authorizationServerMetadata p = None ->
      requests (events (getAuthorizationServerMetadata net p))
      = match URL_origin net (Types.serverUrl (options p)) with
        | Ok origin => [(origin ++ metadataPath, customAgent p)]
        | Throw _ => []
        end)
  /\ (forall p',
        outcome (getAuthorizationServerMetadata net p) = Ok (None, p') ->
        forall net',
          requests (events (getAuthorizationServerMetadata net' p'))
          = match URL_origin net' (Types.serverUrl (options p)) with
            | Ok origin => [(origin ++ metadataPath, customAgent p)]
            | Throw _ => []
            end).
Proof.
  assert (C : forall q m net0,
             authorizationServerMetadata q = Some m ->
             outcome (getAuthorizationServerMetadata net0 q) = Ok (Some m, q)
             /\ requests (events (getAuthorizationServerMetadata net0 q)) = []).
  { intros q m net0 H. unfold getAuthorizationServerMetadata. rewrite H.
    split; reflexivity. }
  destruct (authorizationServerMetadata p) as [m0|] eqn:A.
  - destruct (C p m0 net A) as [O R]. split; [eauto|]. split; [|split; [|split; [|split]]].
    + intros m [= <-]. auto.
    + intros m p' E. rewrite O in E. injection E as <- <-. intros net'. now apply C.
    + intros p' E. rewrite O in E. discriminate.
    + discriminate.
    + intros p' E. rewrite O in E. discriminate.
  - destruct (getAuthorizationServerMetadata_fetches net p A) as [O _].
    assert (K : forall p',
               outcome (getAuthorizationServerMetadata net p) = Ok (None, p') ->
               authorizationServerMetadata p' = None
               /\ Types.serverUrl (options p') = Types.serverUrl (options p)
               /\ customAgent p' = customAgent p).
    { intros p' E. rewrite O in E. injection E as E1 E2. subst p'.
      unfold prefetched in *.
      destruct (URL_origin net (Types.serverUrl (options p)));
        [split; [exact E1 | split; reflexivity]
        | split; [exact A | split; reflexivity]]. }
    split; [eauto|]. split; [discriminate|]. split; [|split; [|split]].
    + intros m p' E. rewrite O in E. injection E as E1 E2. intros net'.
      apply C. subst p'. unfold prefetched in *.
      destruct (URL_origin net (Types.serverUrl (options p)));
        [exact E1 | discriminate].
    + intros p' E. exact (proj1 (K p' E)).
    + intros _. exact (@getAuthorizationServerMetadata_requests net p A).
    + intros p' E net'. destruct (K p' E) as (A' & U & G).
      rewrite (@getAuthorizationServerMetadata_requests net' p' A'), U, G.
      reflexivity.
Qed.

Lemma metadata_cached_in_memory_witness :
  exists p',
    outcome (getAuthorizationServerMetadata net_ok (provider_with None None None))
      = Ok (Some example_metadata, p')
    /\ outcome (getAuthorizationServerMetadata net_404 p') = Ok (Some example_metadata, p')
    /\ requests (events (getAuthorizationServerMetadata net_404 p')) = []
    /\ requests (events (getAuthorizationServerMetadata net_ok (provider_with None None None)))
       = [(js "https://example.com/.well-known/oauth-authorization-server", None)].
Proof.
  eexists. split; [vm_compute; reflexivity|].
  split; [|split].
  - apply (proj1 (proj1 (proj2 (proj2 (metadata_cached_in_memory net_ok
                                  (provider_with None None None)))) _ _ eq_refl net_404)).
  - apply (proj2 (proj1 (proj2 (proj2 (metadata_cached_in_memory net_ok
                                  (provider_with None None None)))) _ _ eq_refl net_404)).
  - exact (proj1 (proj2 (proj2 (proj2 (proj2 (metadata_cached_in_memory net_ok
                                  (provider_with None None None)))))) eq_refl).
Defined.

(* ===================================================================== *)
(** * The scope across the life of an instance *)
(* ===================================================================== *)

(** The scope [getEffectiveScope] returns, by what the instance holds. *)
Lemma getEffectiveScope_cases (p : NodeOAuthClientProvider) :
  outcome (getEffectiveScope p)
  = Ok (if nonblank (scope_of (staticOAuthClientMetadata p))
        then string_of (scope_of (staticOAuthClientMetadata p))
        else if nonblank (scope_of (_clientInfo p))
        then string_of (scope_of (_clientInfo p))
        else match server_scopes p with
             | Some (x :: r) => join (js " ") (x :: r)
             | _ => DEFAULT_SCOPE
             end).
Proof.
  unfold getEffectiveScope, server_scopes, supported_scopes.
  destruct (nonblank (scope_of (staticOAuthClientMetadata p))); [reflexivity|].
  destruct (nonblank (scope_of (_clientInfo p))); [reflexivity|].
  destruct (authorizationServerMetadata p) as [m|]; [|reflexivity].
  destruct (scopes_supported m) as [[|x r]|]; reflexivity.
Qed.

(** What the constructor makes of its options. *)
Lemma constructor_fields fs version uuid opts p :
  outcome (constructor fs version uuid opts) = Ok p ->
  options p = opts
  /\ serverUrlHash p = Types.serverUrlHash opts
  /\ callbackPath p = or_default (Types.callbackPath opts) (js "/oauth/callback")
  /\ clientName p = or_default (Types.clientName opts) (js "MCP CLI Client")
  /\ staticOAuthClientMetadata p = Types.staticOAuthClientMetadata opts
  /\ staticOAuthClientInfo p = Types.staticOAuthClientInfo opts
  /\ authorizeResource p = Types.authorizeResource opts
  /\ _state p = uuid
  /\ _clientInfo p = None
  /\ authorizationServerMetadata p = Types.authorizationServerMetadata opts.
Proof.
  unfold constructor. rewrite outcome_bind.
  destruct (outcome _) as [a|e]; [|discriminate].
  cbn. intros [= <-]. cbn. repeat split.
Qed.

Lemma requests_createTLSAgent fs tls :
  requests (events (createTLSAgent fs tls)) = [].
Proof.
  destruct tls as [cfg|]; [|reflexivity].
  unfold createTLSAgent.
  load_step fs (cert cfg);
    [ load_step fs (key cfg);
      [ load_step fs (ca cfg) | | load_step fs (ca cfg) ]
    | | load_step fs (key cfg);
      [ load_step fs (ca cfg) | | load_step fs (ca cfg) ] ];
    finish_build cfg.
Qed.

Lemma requests_constructor fs version uuid opts :
  requests (events (constructor fs version uuid opts)) = [].
Proof.
  destruct (Types.tlsClientCert opts) as [cfg|] eqn:T.
  - destruct (@constructor_with_tls fs version uuid opts cfg T) as [E _].
    rewrite E. cbn [requests]. apply requests_createTLSAgent.
  - destruct (@constructor_without_tls fs version uuid opts T) as [E _].
    now rewrite E.
Qed.

(** The run of [runProxy] up to the assignment of the fetched metadata:
    the constructor, then the pre-fetch, which cannot fail. *)
Lemma runProxy_setup_run fs net version uuid url port hst scm sci res hash tls :
  match outcome (constructor fs version uuid
                   (mkOAuthProviderOptions url port hst None
                      (Some (js "MCP CLI Proxy")) None None None scm sci res
                      hash None tls)) with
  | Throw e =>
      outcome (runProxy_setup fs net version uuid url port hst scm sci res hash tls)
        = Throw e
      /\ requests (events (runProxy_setup fs net version uuid url port hst scm sci
                             res hash tls)) = []
  | Ok p =>
      outcome (runProxy_setup fs net version uuid url port hst scm sci res hash tls)
        = Ok (set_options_authorizationServerMetadata
                (prefetched net url (customAgent p)) p,
              customAgent p,
              match customAgent p with Some _ => true | None => false end)
      /\ requests (events (runProxy_setup fs net version uuid url port hst scm sci
                             res hash tls))
         = match URL_origin net url with
           | Ok origin => [(origin ++ metadataPath, customAgent p)]
           | Throw _ => []
           end
  end.
Proof.
  unfold runProxy_setup.
  pose proof (requests_constructor fs version uuid
                (mkOAuthProviderOptions url port hst None
                   (Some (js "MCP CLI Proxy")) None None None scm sci res
                   hash None tls)) as RC.
  destruct (constructor _ _ _ _) as [t [p|e]]; cbn [outcome events fst snd] in *;
    [|split; [reflexivity | exact RC]].
  rewrite bind_Ok. cbn [outcome events fst snd]. unfold getCustomAgent, prefetched.
  destruct (fetchAuthorizationServerMetadata_run net url (customAgent p))
    as (O & R & _).
  destruct (fetchAuthorizationServerMetadata net url (customAgent p)) as [tf rf].
  cbn [outcome events fst snd] in O, R. subst rf.
  rewrite requests_app, RC. cbn [app].
  destruct (customAgent p) as [a|];
    (destruct (URL_origin net url) as [origin|e];
     [ destruct (metadata_of net (origin ++ metadataPath) _) as [m|];
       cbn -[js];
       try match goal with
           | |- context [match scopes_supported ?x with _ => _ end] =>
               destruct (scopes_supported x)
           end;
       cbn -[js]
     | cbn -[js] ]);
    rewrite ?requests_app, ?app_nil_r, ?R; cbn [requests app];
    rewrite ?app_nil_r, ?R; split; reflexivity.
Qed.

Lemma customAgent_set_options v p :
  customAgent (set_options_authorizationServerMetadata v p) = customAgent p.
Proof. reflexivity. Qed.

(** X6. The metadata that [runProxy] pre-fetches is stored in the options
    object only: the instance itself still holds none, and its effective
    scope is the static scope given by the user or else the default, never
    the [scopes_supported] of the server, whatever the pre-fetch
    returned. *)
Theorem prefetched_metadata_not_used_for_scope
    fs net version uuid url port hst scm sci res hash tls prov agent overridden :
  outcome (runProxy_setup fs net version uuid url port hst scm sci res hash tls)
    = Ok (prov, agent, overridden) ->
  Types.authorizationServerMetadata (options prov) = prefetched net url agent
  /\ authorizationServerMetadata prov = None
  /\ (forall s, scope_of scm = Some s -> non_whitespace s ->
                outcome (getEffectiveScope prov) = Ok s)
  /\ (blank (scope_of scm) ->
      outcome (getEffectiveScope prov) = Ok (js "openid email profile")).
Proof.
  intros H.
  pose proof (runProxy_setup_run fs net version uuid url port hst scm sci res hash tls) as R.
  destruct (outcome (constructor _ _ _ _)) as [p|e] eqn:C.
  - destruct R as [O _]. rewrite O in H. injection H as <- <- <-.
    destruct (constructor_fields _ _ _ _ C)
      as (Eo & _ & _ & _ & Es & _ & _ & _ & Ec & Ea).
    cbn in Es, Ea.
    split; [reflexivity|]. split; [exact Ea|].
    assert (G := getEffectiveScope_cases
                   (set_options_authorizationServerMetadata
                      (prefetched net url (customAgent p)) p)).
    unfold server_scopes in G. cbn [staticOAuthClientMetadata _clientInfo
      authorizationServerMetadata set_options_authorizationServerMetadata] in G.
    rewrite Es, Ec, Ea in G. cbn [scope_of nonblank] in G.
    split.
    + intros s S N. rewrite G, S. apply nonblank_iff in N. now rewrite N.
    + intros B. apply nonblank_blank in B. now rewrite G, B.
  - destruct R as [O _]. rewrite O in H. discriminate.
Qed.

Lemma prefetched_metadata_not_used_for_scope_witness :
  exists prov agent overridden,
    outcome (runProxy_setup disk_with_cert_and_key net_ok (js "0.1.0") (js "uuid")
               (js "https://example.com/mcp") 3334 (js "localhost")
               None None None (js "0123abcd") None)
      = Ok (prov, agent, overridden)
    /\ Types.authorizationServerMetadata (options prov) = Some example_metadata
    /\ outcome (getEffectiveScope prov) = Ok (js "openid email profile").
Proof.
  do 3 eexists. split; [vm_compute; reflexivity|].
  split; [reflexivity|].
  refine (proj2 (proj2 (proj2
            (@prefetched_metadata_not_used_for_scope disk_with_cert_and_key net_ok
               (js "0.1.0") (js "uuid") (js "https://example.com/mcp") 3334
               (js "localhost") None None None (js "0123abcd") None _ _ _ eq_refl))) _).
  intros s [=].
Defined.

(** X7. Once the instance has fetched the metadata itself, the scopes of
    the server are used: with no static scope and no registered scope, a
    call of [getAuthorizationServerMetadata] that obtains metadata with a
    non-empty [scopes_supported] makes the effective scope those scopes
    joined with spaces. *)
Theorem fetched_metadata_sets_scope
    (net : network) (p : NodeOAuthClientProvider)
    (m : AuthorizationServerMetadata) (x : jsstring) (r : list jsstring) :
  authorizationServerMetadata p = None ->
  blank (scope_of (staticOAuthClientMetadata p)) ->
  blank (scope_of (_clientInfo p)) ->
  prefetched net (Types.serverUrl (options p)) (customAgent p) = Some m ->
  scopes_supported m = Some (x :: r) ->
  exists p',
    outcome (getAuthorizationServerMetadata net p) = Ok (Some m, p')
    /\ outcome (getEffectiveScope p) = Ok (js "openid email profile")
    /\ outcome (getEffectiveScope p') = Ok (join (js " ") (x :: r)).
Proof.
  intros A B1 B2 F S.
  destruct (getAuthorizationServerMetadata_fetches net p A) as [O _].
  rewrite F in O. unfold prefetched in F.
  destruct (URL_origin net (Types.serverUrl (options p))); [|discriminate].
  eexists. split; [exact O|].
  apply nonblank_blank in B1, B2. split.
  - rewrite getEffectiveScope_cases, B1, B2. unfold server_scopes. now rewrite A.
  - rewrite getEffectiveScope_cases. unfold server_scopes.
    cbn [staticOAuthClientMetadata _clientInfo authorizationServerMetadata
           set_authorizationServerMetadata].
    now rewrite B1, B2, S.
Qed.

Lemma fetched_metadata_sets_scope_witness :
  exists p',
    outcome (getAuthorizationServerMetadata net_ok (provider_with None None None))
      = Ok (Some example_metadata, p')
    /\ outcome (getEffectiveScope (provider_with None None None))
       = Ok (js "openid email profile")
    /\ outcome (getEffectiveScope p') = Ok (js "openid email profile custom:read").
Proof.
  apply (@fetched_metadata_sets_scope net_ok (provider_with None None None)
           example_metadata (js "openid") [js "email"; js "profile"; js "custom:read"]).
  - reflexivity.
  - intros s [=].
  - intros s [=].
  - reflexivity.
  - reflexivity.
Defined.

(** The constructor fails exactly on a referenced file that cannot be
    read. *)
Lemma constructor_outcome fs version uuid opts :
  match Types.tlsClientCert opts with
  | Some cfg =>
      match first_unreadable fs (referenced cfg) with
      | Some e => outcome (constructor fs version uuid opts) = Throw e
      | None => exists p, outcome (constructor fs version uuid opts) = Ok p
      end
  | None => exists p, outcome (constructor fs version uuid opts) = Ok p
  end.
Proof.
  destruct (Types.tlsClientCert opts) as [cfg|] eqn:T.
  - destruct (@constructor_with_tls fs version uuid opts cfg T) as [_ O].
    pose proof (createTLSAgent_cases fs cfg) as C.
    destruct (first_unreadable fs (referenced cfg)) as [e|].
    + destruct C as [C _]. now rewrite C in O.
    + destruct C as [C _]. rewrite C in O. destruct O as (p & O & _). eauto.
  - destruct (@constructor_without_tls fs version uuid opts T) as (_ & p & O & _).
    eauto.
Qed.

(** X8. The set-up of [runProxy] fails exactly when a referenced TLS file
    cannot be read: it then ends with the read error before any request
    is made. The pre-fetch of the metadata never makes it fail, not even a
    server URL that the [URL] constructor rejects. *)
Theorem setup_fails_only_on_tls_files
    fs net version uuid url port hst scm sci res hash tls :
  match tls with
  | Some cfg =>
      match first_unreadable fs (referenced cfg) with
      | Some e =>
          outcome (runProxy_setup fs net version uuid url port hst scm sci res
                     hash tls) = Throw e
          /\ requests (events (runProxy_setup fs net version uuid url port hst scm
                                 sci res hash tls)) = []
      | None =>
          exists r, outcome (runProxy_setup fs net version uuid url port hst scm
                               sci res hash tls) = Ok r
      end
  | None =>
      exists r, outcome (runProxy_setup fs net version uuid url port hst scm sci
                           res hash tls) = Ok r
  end.
Proof.
  pose proof (runProxy_setup_run fs net version uuid url port hst scm sci res hash tls) as R.
  pose proof (constructor_outcome fs version uuid
                (mkOAuthProviderOptions url port hst None
                   (Some (js "MCP CLI Proxy")) None None None scm sci res
                   hash None tls)) as C.
  cbn [Types.tlsClientCert] in C.
  destruct tls as [cfg|];
    [destruct (first_unreadable fs (referenced cfg)) as [e|]|].
  - rewrite C in R. exact R.
  - destruct C as [p C]. rewrite C in R. destruct R as [O _]. eauto.
  - destruct C as [p C]. rewrite C in R. destruct R as [O _]. eauto.
Qed.

(** X9. When the set-up succeeds it has made at most one request, the
    pre-fetch of the metadata, through the agent of the instance; and
    [globalThis.fetch] has been replaced exactly when a TLS configuration
    was supplied. *)
Theorem setup_request_goes_through_the_agent
    fs net version uuid url port hst scm sci res hash tls prov agent overridden :
  outcome (runProxy_setup fs net version uuid url port hst scm sci res hash tls)
    = Ok (prov, agent, overridden) ->
  requests (events (runProxy_setup fs net version uuid url port hst scm sci res
                      hash tls))
    = match URL_origin net url with
      | Ok origin => [(origin ++ metadataPath, getCustomAgent prov)]
      | Throw _ => []
      end
  /\ agent = getCustomAgent prov
  /\ (overridden = true <-> tls <> None).
Proof.
  intros H.
  pose proof (runProxy_setup_run fs net version uuid url port hst scm sci res hash tls) as R.
  pose proof (constructor_agent_count fs version uuid
                (mkOAuthProviderOptions url port hst None
                   (Some (js "MCP CLI Proxy")) None None None scm sci res
                   hash None tls)) as K.
  destruct (outcome (constructor _ _ _ _)) as [p|e].
  - destruct R as [O Q]. rewrite O in H. injection H as <- <- <-.
    destruct K as [_ K]. cbn [Types.tlsClientCert] in K.
    split; [exact Q|]. split; [reflexivity|].
    destruct (customAgent p) as [a|]; split; try discriminate; try reflexivity.
    + intros _ T. apply K in T. discriminate.
    + intros T. exfalso. apply T. now apply K.
  - destruct R as [O _]. rewrite O in H. discriminate.
Qed.

Lemma setup_request_goes_through_the_agent_witness :
  exists prov agent,
    outcome (runProxy_setup disk_with_cert_and_key net_404 (js "0.1.0") (js "uuid")
               (js "https://example.com/mcp") 3334 (js "localhost")
               None None None (js "0123abcd") (Some cfg_cert_and_key))
      = Ok (prov, agent, true)
    /\ requests (events (runProxy_setup disk_with_cert_and_key net_404 (js "0.1.0")
                           (js "uuid") (js "https://example.com/mcp") 3334
                           (js "localhost") None None None (js "0123abcd")
                           (Some cfg_cert_and_key)))
       = [(js "https://example.com/.well-known/oauth-authorization-server",
           Some (complete_identity disk_with_cert_and_key cfg_cert_and_key))].
Proof.
  do 2 eexists. split; [vm_compute; reflexivity|].
  refine (eq_trans (proj1 (@setup_request_goes_through_the_agent
                             disk_with_cert_and_key net_404 (js "0.1.0") (js "uuid")
                             (js "https://example.com/mcp") 3334 (js "localhost")
                             None None None (js "0123abcd") (Some cfg_cert_and_key)
                             _ _ _ eq_refl)) _).
  vm_compute. reflexivity.
Defined.

(** X10. Saving a registration makes its scope the effective one: after
    [saveClientInformation], with no static scope, the scope of the saved
    client information (when it is not blank) is what [getEffectiveScope]
    returns, whatever scope was registered before and whatever the server
    supports. *)
Theorem saved_registration_sets_scope
    (clientInformation : OAuthClientInformationFull) (disk : CredentialStore)
    (p : NodeOAuthClientProvider) (s : jsstring) :
  blank (scope_of (staticOAuthClientMetadata p)) ->
  scope_of (Some clientInformation) = Some s ->
  non_whitespace s ->
  exists disk' p',
    outcome (saveClientInformation clientInformation disk p) = Ok (disk', p')
    /\ outcome (getEffectiveScope p') = Ok s.
Proof.
  intros B S N. do 2 eexists. split; [reflexivity|].
  rewrite getEffectiveScope_cases.
  cbn [staticOAuthClientMetadata _clientInfo set__clientInfo].
  apply nonblank_blank in B. rewrite B, S.
  apply nonblank_iff in N. now rewrite N.
Qed.

Lemma saved_registration_sets_scope_witness :
  exists disk' p',
    outcome (saveClientInformation [("scope"%string, VString (js "mcp:tools"))]
               (fun _ => empty_namespace)
               (provider_with None (Some [("scope"%string, VString (js "old"))])
                  (Some example_metadata)))
      = Ok (disk', p')
    /\ outcome (getEffectiveScope p') = Ok (js "mcp:tools").
Proof.
  apply saved_registration_sets_scope.
  - intros s [=].
  - reflexivity.
  - exists 109%N. split; [now left | reflexivity].
Defined.

(** X11. Invalidating [all] or [client] forgets the registration held in
    memory, so that its scope is no longer used: with no static scope the
    effective scope is then the server's scopes or the default.
    Invalidating [tokens] or [verifier] leaves the effective scope as it
    was. *)
Theorem invalidation_and_scope
    (scope : credential_scope) (disk : CredentialStore)
    (p : NodeOAuthClientProvider) :
  exists disk' p',
    outcome (invalidateCredentials scope disk p) = Ok (disk', p')
    /\ match scope with
       | all | client =>
           _clientInfo p' = None
           /\ (blank (scope_of (staticOAuthClientMetadata p)) ->
               outcome (getEffectiveScope p')
               = Ok match server_scopes p with
                    | Some (x :: r) => join (js " ") (x :: r)
                    | _ => js "openid email profile"
                    end)
       | tokens_only | verifier =>
           _clientInfo p' = _clientInfo p
           /\ outcome (getEffectiveScope p') = outcome (getEffectiveScope p)
       end.
Proof.
  destruct scope; do 2 eexists; (split; [reflexivity|]); cbn [fst snd];
    split; try reflexivity;
    intros B; apply nonblank_blank in B;
    rewrite getEffectiveScope_cases;
    cbn [staticOAuthClientMetadata _clientInfo set__clientInfo]; rewrite B;
    reflexivity.
Qed.

Lemma invalidation_and_scope_witness :
  exists disk' p',
    outcome (invalidateCredentials client (fun _ => empty_namespace)
               (provider_with None (Some [("scope"%string, VString (js "old"))]) None))
      = Ok (disk', p')
    /\ outcome (getEffectiveScope p') = Ok (js "openid email profile").
Proof.
  destruct (invalidation_and_scope client (fun _ => empty_namespace)
              (provider_with None (Some [("scope"%string, VString (js "old"))]) None))
    as (d & q & O & _ & S).
  exists d, q. split; [exact O|]. apply S. intros s [=].
Defined.

(** X12. A registration held in memory outlives its file: when
    [clientInformation()] finds no static information and nothing in the
    store it returns [undefined] but does not clear [_clientInfo], so the
    scope registered earlier is still the effective scope. *)
Theorem registration_survives_missing_file
    (disk : CredentialStore) (p : NodeOAuthClientProvider) (s : jsstring) :
  staticOAuthClientInfo p = None ->
  client_info_json (disk (serverUrlHash p)) = None ->
  blank (scope_of (staticOAuthClientMetadata p)) ->
  scope_of (_clientInfo p) = Some s ->
  non_whitespace s ->
  exists p',
    outcome (clientInformation disk p) = Ok (None, p')
    /\ _clientInfo p' = _clientInfo p
    /\ outcome (getEffectiveScope p') = Ok s.
Proof.
  intros S D B R N. exists p.
  unfold clientInformation. rewrite S, D. split; [reflexivity|].
  split; [reflexivity|].
  rewrite getEffectiveScope_cases. apply nonblank_blank in B. rewrite B, R.
  apply nonblank_iff in N. now rewrite N.
Qed.

Lemma registration_survives_missing_file_witness :
  exists p',
    outcome (clientInformation (fun _ => empty_namespace)
               (provider_with None (Some [("scope"%string, VString (js "old"))]) None))
      = Ok (None, p')
    /\ outcome (getEffectiveScope p') = Ok (js "old").
Proof.
  destruct (@registration_survives_missing_file (fun _ => empty_namespace)
              (provider_with None (Some [("scope"%string, VString (js "old"))]) None)
              (js "old")) as (q & O & _ & S).
  - reflexivity.
  - reflexivity.
  - intros s [=].
  - reflexivity.
  - exists 111%N. split; [now left | reflexivity].
  - exists q. split; [exact O | exact S].
Defined.

(* ===================================================================== *)
(** * The client metadata *)
(* ===================================================================== *)

Lemma obj_get_set_other (k k' : string) (v : jsvalue) (o : jsobject) :
  k <> k' -> obj_get k (obj_set k' v o) = obj_get k o.
Proof.
  intros N. induction o as [|[k0 v0] r IH]; cbn.
  - destruct (String.eqb k k') eqn:E; [apply String.eqb_eq in E; contradiction|].
    reflexivity.
  - destruct (String.eqb k' k0) eqn:E; cbn.
    + apply String.eqb_eq in E. subst k0.
      destruct (String.eqb k k') eqn:E'; [apply String.eqb_eq in E'; contradiction|].
      reflexivity.
    + destruct (String.eqb k k0); [reflexivity | exact IH].
Qed.

(** A spread gives a key the last value the spread object has for it, and
    otherwise leaves the value it had. *)
Lemma obj_get_spread (k : string) (o ext : jsobject) :
  obj_get k (obj_spread o ext)
  = match last_value k ext with
    | Some v => Some v
    | None => obj_get k o
    end.
Proof.
  unfold obj_spread, last_value.
  induction ext as [|[k' v'] ext IH] using rev_ind; [reflexivity|].
  rewrite fold_left_app, rev_app_distr. cbn [fold_left rev app fst snd obj_get].
  destruct (String.eqb k k') eqn:E.
  - apply String.eqb_eq in E. subst k'. apply obj_get_set.
  - rewrite obj_get_set_other; [exact IH|].
    intros ->. rewrite String.eqb_refl in E. discriminate.
Qed.

(** X13. In the client metadata every property other than [scope] is the
    one of [staticOAuthClientMetadata] when it has it, and the default of
    the provider otherwise; the static metadata cannot set [scope], which
    is assigned after the spread. *)
Theorem client_metadata_static_overrides_defaults
    (p : NodeOAuthClientProvider) (k : string) :
  k <> "scope"%string ->
  exists o,
    outcome (clientMetadata p) = Ok o
    /\ obj_get k o
       = match last_value k (props_of (staticOAuthClientMetadata p)) with
         | Some v => Some v
         | None => obj_get k (default_metadata p)
         end.
Proof.
  intros N. destruct (getEffectiveScope_returns p) as (scope & O & _).
  unfold clientMetadata. rewrite outcome_bind, O. cbn [outcome ret snd].
  eexists. split; [reflexivity|].
  rewrite obj_get_set_other by exact N.
  apply obj_get_spread.
Qed.

Lemma client_metadata_static_overrides_defaults_witness :
  exists o,
    outcome (clientMetadata
               (provider_with
                  (Some [("client_name"%string, VString (js "My client"));
                         ("scope"%string, VString (js " "))])
                  None None)) = Ok o
    /\ obj_get "client_name" o = Some (VString (js "My client"))
    /\ obj_get "client_uri" o
       = Some (VString (js "https://github.com/modelcontextprotocol/mcp-cli")).
Proof.
  destruct (@client_metadata_static_overrides_defaults
              (provider_with
                 (Some [("client_name"%string, VString (js "My client"));
                        ("scope"%string, VString (js " "))])
                 None None) "client_name") as (o & O & G); [discriminate|].
  exists o. split; [exact O|]. split; [exact G|].
  destruct (@client_metadata_static_overrides_defaults
              (provider_with
                 (Some [("client_name"%string, VString (js "My client"));
                        ("scope"%string, VString (js " "))])
                 None None) "client_uri") as (o' & O' & G'); [discriminate|].
  assert (o' = o) by congruence. subst o'. exact G'.
Defined.

(* ===================================================================== *)
(** * The authorization URL *)
(* ===================================================================== *)

(** Setting a name leaves the pairs of the other names as they were. *)
Lemma params_set_filter (q : jsstring * jsstring -> bool) (name value : jsstring)
    (l : list (jsstring * jsstring)) :
  (forall kv, jsstring_eqb (fst kv) name = true -> q kv = false) ->
  filter q (params_set name value l) = filter q l.
Proof.
  intros Q. induction l as [|[k v] r IH]; cbn.
  - now rewrite (Q (name, value)) by apply jsstring_eqb_refl.
  - destruct (jsstring_eqb k name) eqn:E; cbn.
    + rewrite (Q (k, value)), (Q (k, v)) by exact E.
      clear IH. induction r as [|[k' v'] r IHr]; [reflexivity|]. cbn.
      destruct (jsstring_eqb k' name) eqn:E'; cbn.
      * rewrite (Q (k', v')) by exact E'. exact IHr.
      * destruct (q (k', v')); [f_equal|]; exact IHr.
    + destruct (q (k, v)); [f_equal|]; exact IH.
Qed.

Lemma params_get_set_other (name other value : jsstring) (u : URL) :
  jsstring_eqb other name = false ->
  searchParams_get other (searchParams_set name value u) = searchParams_get other u.
Proof.
  intros N. unfold searchParams_get, searchParams_set. cbn [searchParams].
  induction (searchParams u) as [|[k v] r IH]; cbn.
  - assert (E : jsstring_eqb name other = false).
    { unfold jsstring_eqb in *. destruct (jsstring_eq_dec name other);
        [subst; destruct (jsstring_eq_dec other other); congruence | reflexivity]. }
    now rewrite E.
  - destruct (jsstring_eqb k name) eqn:E; cbn.
    + assert (K : jsstring_eqb k other = false).
      { unfold jsstring_eqb in *.
        destruct (jsstring_eq_dec k name); [subst|discriminate].
        destruct (jsstring_eq_dec name other); [|reflexivity].
        subst. destruct (jsstring_eq_dec other other); congruence. }
      rewrite K. clear IH.
      induction r as [|[k' v'] r IHr]; [reflexivity|]. cbn.
      destruct (jsstring_eqb k' name) eqn:E'; cbn.
      * assert (K' : jsstring_eqb k' other = false).
        { unfold jsstring_eqb in *.
          destruct (jsstring_eq_dec k' name); [subst|discriminate].
          destruct (jsstring_eq_dec name other); [|reflexivity].
          subst. destruct (jsstring_eq_dec other other); congruence. }
        rewrite K'. exact IHr.
      * destruct (jsstring_eqb k' other); [reflexivity | exact IHr].
    + destruct (jsstring_eqb k other); [reflexivity | exact IH].
Qed.

(** X14. [redirectToAuthorization] touches two parameters of the URL it is
    given and nothing else: the pairs of every other name stay as they
    were, in order; [resource] is set to [authorizeResource] when that is
    a non-empty string and left as it was otherwise. *)
Theorem redirect_keeps_other_parameters
    (net : network) (plat : platform) (p : NodeOAuthClientProvider)
    (authorizationUrl : URL) :
  exists url',
    outcome (redirectToAuthorization net plat p authorizationUrl) = Ok url'
    /\ href_base url' = href_base authorizationUrl
    /\ other_params (searchParams url') = other_params (searchParams authorizationUrl)
    /\ searchParams_get (js "resource") url'
       = match referenced_path (authorizeResource p) with
         | Some r => Some r
         | None => searchParams_get (js "resource") authorizationUrl
         end.
Proof.
  destruct (redirectToAuthorization_run net plat p authorizationUrl)
    as (scope & _ & O & _).
  eexists. split; [exact O|]. unfold completed_url.
  split; [now destruct (referenced_path (authorizeResource p))|].
  split.
  - unfold other_params, searchParams_set. cbn [searchParams].
    rewrite params_set_filter
      by (intros kv E; rewrite E; reflexivity).
    destruct (referenced_path (authorizeResource p)); [|reflexivity].
    cbn [searchParams]. apply params_set_filter.
    intros kv E. rewrite E. apply andb_false_r.
  - rewrite params_get_set_other by reflexivity.
    destruct (referenced_path (authorizeResource p)); [|reflexivity].
    apply params_get_set.
Qed.

(* ===================================================================== *)
(** * What no call changes *)
(* ===================================================================== *)

Section KeepsIdentity.

Context {A B : Type}.

Lemma keeps_identity_bind p proj (m : comp A) (k : A -> comp B) :
  (forall a, keeps_identity p proj (k a)) -> keeps_identity p proj (bind m k).
Proof.
  unfold keeps_identity. intros Hk x. rewrite outcome_bind.
  destruct (outcome m); [apply Hk | discriminate].
Qed.

Lemma keeps_identity_try_catch p proj (m : comp A) (h : error -> comp A) :
  keeps_identity p proj m -> (forall e, keeps_identity p proj (h e)) ->
  keeps_identity p proj (try_catch m h).
Proof.
  unfold keeps_identity. destruct m as [t [a|e]]; cbn; intros Hm Hh x; [apply Hm|].
  specialize (Hh e). destruct (h e) as [t' r]. cbn in *. apply Hh.
Qed.

End KeepsIdentity.

Ltac keeps_identity_step :=
  first
    [ apply keeps_identity_bind; intros ?
    | apply keeps_identity_try_catch; [|intros ?]
    | match goal with
      | |- keeps_identity _ _ (match ?x with _ => _ end) => destruct x
      end
    | (intros ? [= <-]; reflexivity) ].

Lemma after_keeps_identity {A} (w : world) (m : comp A) (f : A -> returned * world) :
  (forall a, outcome m = Ok a -> identity (fst (snd (f a))) = identity (fst w)) ->
  identity (fst (snd (snd (after w m f)))) = identity (fst w).
Proof. destruct m as [t [a|e]]; cbn; intros K; auto. Qed.

Lemma invoke_keeps_identity net plat c w :
  identity (fst (snd (snd (invoke net plat c w)))) = identity (fst w).
Proof.
  destruct w as [p disk].
  destruct c; cbn [invoke]; try reflexivity;
    apply after_keeps_identity; cbn [fst snd]; try (intros; reflexivity);
    match goal with
    | |- forall a, outcome ?m = Ok a -> _ => change (keeps_identity p snd m)
    end;
    unfold getAuthorizationServerMetadata, clientInformation,
      saveClientInformation, invalidateCredentials;
    repeat keeps_identity_step.
  intros x [= <-]. cbn. now destruct (client_info_json _).
Qed.

Lemma run_keeps_identity net plat cs w :
  identity (fst (snd (run net plat cs w))) = identity (fst w).
Proof.
  revert w. induction cs as [|c cs IH]; intros w; [reflexivity|].
  cbn [run].
  pose proof (invoke_keeps_identity net plat c w) as K.
  destruct (invoke net plat c w) as [t [r w']]. cbn [fst snd] in K.
  specialize (IH w').
  destruct (run net plat cs w') as [t' w'']. cbn [fst snd] in *. congruence.
Qed.

(** X15. No sequence of calls on an instance changes what identifies it:
    [state()] returns the same value for the life of the instance, and so
    do the redirect URL, the namespace hash, the static client metadata
    and information and the resource; the calls only ever change the
    registration and the server metadata held in memory. *)
Theorem identity_is_stable
    (net : network) (plat : platform) (calls : list method)
    (p : NodeOAuthClientProvider) (disk : CredentialStore) :
  state (fst (snd (run net plat calls (p, disk)))) = state p
  /\ redirectUrl (fst (snd (run net plat calls (p, disk)))) = redirectUrl p
  /\ serverUrlHash (fst (snd (run net plat calls (p, disk)))) = serverUrlHash p
  /\ staticOAuthClientMetadata (fst (snd (run net plat calls (p, disk))))
     = staticOAuthClientMetadata p
  /\ staticOAuthClientInfo (fst (snd (run net plat calls (p, disk))))
     = staticOAuthClientInfo p
  /\ authorizeResource (fst (snd (run net plat calls (p, disk))))
     = authorizeResource p.
Proof.
  pose proof (run_keeps_identity net plat calls (p, disk)) as K.
  cbn [fst] in K. unfold identity in K.
  set (q := fst (snd (run net plat calls (p, disk)))) in *.
  injection K as E1 E2 E3 E4 E5 E6 E7 E8 E9 E10 E11 E12 E13 E14 E15.
  unfold state, redirectUrl. repeat split; congruence.
Qed.

(* ===================================================================== *)
(** * The end of the process *)
(* ===================================================================== *)

Lemma startsWith_spec (needle s : jsstring) :
  startsWith s needle = true <-> exists post, s = needle ++ post.
Proof.
  revert s. induction needle as [|a needle IH]; intros s.
  - destruct s; cbn; split; eauto.
  - destruct s as [|b s]; cbn.
    + split; [discriminate | intros [post H]; discriminate].
    + rewrite andb_true_iff, N.eqb_eq, IH. split.
      * intros [-> [post ->]]. eauto.
      * intros [post [= -> ->]]. eauto.
Qed.

(** [includes] holds exactly of the strings that contain the needle. *)
Lemma includes_spec (s needle : jsstring) :
  includes s needle = true <-> exists pre post, s = pre ++ needle ++ post.
Proof.
  induction s as [|c s IH].
  - cbn [includes]. rewrite startsWith_spec. split.
    + intros [post H]. exists [], post. exact H.
    + intros (pre & post & H). destruct pre; [eauto | discriminate].
  - cbn [includes]. rewrite orb_true_iff, startsWith_spec, IH. split.
    + intros [[post H]|(pre & post & H)].
      * exists [], post. exact H.
      * exists (c :: pre), post. now rewrite H.
    + intros (pre & post & H). destruct pre as [|d pre].
      * left. eauto.
      * right. injection H as -> H. eauto.
Qed.

Lemma count_step_app (f : proc_step -> bool) (l1 l2 : list proc_step) :
  count_step f (l1 ++ l2) = count_step f l1 + count_step f l2.
Proof.
  induction l1 as [|x l1 IH]; [reflexivity|]. cbn. rewrite IH. lia.
Qed.

(** The effects recorded so far are none of the steps that start, close
    or end things. *)
Lemma did_counts (t : trace) :
  count_step is_Exit (did t) = 0
  /\ count_step is_Close_server (did t) = 0
  /\ count_step is_Install_handlers (did t) = 0
  /\ count_step is_start (did t) = 0
  /\ ~ In Hint_vpn (did t)
  /\ count_step is_request (did t) = List.length (requests t).
Proof.
  induction t as [|ev t (E & C & I & S & H & R)]; [repeat split; auto|].
  cbn [did map count_step is_Exit is_Close_server is_Install_handlers is_start].
  repeat split; auto.
  - intros [K|K]; [discriminate | exact (H K)].
  - destruct ev; cbn; fold (did t); now rewrite R.
Qed.

(** The [catch] block: the hint when the message has the phrase, the
    server closed when there is one, and the exit, once and last. *)
Lemma fatal_shape (error : error) (server : option N) :
  (exists before,
     fatal error server
     = before ++ (match server with Some h => [Close_server h] | None => [] end)
         ++ [Exit 1]
     /\ count_step is_Exit before = 0
     /\ count_step is_Close_server before = 0)
  /\ count_step is_Exit (fatal error server) = 1
  /\ count_step is_Install_handlers (fatal error server) = 0
  /\ count_step is_start (fatal error server) = 0
  /\ count_step is_request (fatal error server) = 0
  /\ (In Hint_vpn (fatal error server)
      <-> exists pre post, err_message error = pre ++ SELF_SIGNED ++ post).
Proof.
  rewrite <- includes_spec. unfold fatal.
  destruct (includes (err_message error) SELF_SIGNED).
  - split; [exists [Did (Log (js "Fatal error:")); Hint_vpn];
            repeat split; reflexivity|].
    destruct server as [h|]; cbn -[js]; repeat split; auto.
  - split; [exists [Did (Log (js "Fatal error:"))]; repeat split; reflexivity|].
    destruct server as [h|]; cbn -[js]; repeat split; auto; try discriminate;
      intros K; repeat (destruct K as [K|K]; try discriminate); destruct K.
Qed.

(** When the set-up of [runProxy] has succeeded and the session fails, the
    run is what came before followed by the [catch] block. *)
Lemma runProxy_failing fs net version uuid a ses error r :
  outcome (runProxy_setup fs net version uuid
             (arg_serverUrl a) (arg_callbackPort a) (arg_host a)
             (arg_staticOAuthClientMetadata a) (arg_staticOAuthClientInfo a)
             (arg_authorizeResource a) (arg_serverUrlHash a)
             (arg_tlsClientCert a)) = Ok r ->
  failure ses = Some error ->
  exists t starts,
    runProxy fs net version uuid a ses
    = (did t ++ starts ++ fatal error (server_var ses), Ok tt)
    /\ (starts = [] \/ starts = [Start_relay; Start_local]).
Proof.
  unfold runProxy, failure.
  destruct (runProxy_setup _ _ _ _ _ _ _ _ _ _ _ _) as [t [x|e]];
    cbn [outcome snd]; [|discriminate].
  intros _. destruct (connected ses) as [tc [name|e]]; cbn [outcome snd].
  - destruct (started ses) as [[]|e]; [discriminate|]. intros [= ->].
    exists (t ++ tc), [Start_relay; Start_local]. unfold did.
    rewrite map_app, <- !app_assoc. split; [reflexivity | now right].
  - intros [= ->]. exists (t ++ tc), []. unfold did.
    rewrite map_app, <- !app_assoc. split; [reflexivity | now left].
Qed.

(** X16. A failure of the connection or of the local transport is fatal
    and tidy: [runProxy] logs it, closes the callback server exactly when
    one was started, and only then exits, once, with code 1; the signal
    handlers are never installed, and the VPN hint is printed exactly when
    the message of the error contains the self-signed-certificate
    phrase. The run ends with the [catch] block in its order: the line
    ['Fatal error:'] in the user log, the hint if any, the closing of the
    server if any, the exit. *)
Theorem fatal_error_closes_server_then_exits
    fs net version uuid a ses error r :
  outcome (runProxy_setup fs net version uuid
             (arg_serverUrl a) (arg_callbackPort a) (arg_host a)
             (arg_staticOAuthClientMetadata a) (arg_staticOAuthClientInfo a)
             (arg_authorizeResource a) (arg_serverUrlHash a)
             (arg_tlsClientCert a)) = Ok r ->
  failure ses = Some error ->
  (exists before,
     fst (runProxy fs net version uuid a ses)
     = before ++ (match server_var ses with Some h => [Close_server h] | None => [] end)
         ++ [Exit 1]
     /\ count_step is_Exit before = 0
     /\ count_step is_Close_server before = 0)
  /\ count_step is_Install_handlers (fst (runProxy fs net version uuid a ses)) = 0
  /\ (In Hint_vpn (fst (runProxy fs net version uuid a ses))
      <-> exists pre post, err_message error = pre ++ SELF_SIGNED ++ post)
  /\ (exists before hint,
       fst (runProxy fs net version uuid a ses)
       = before ++ Did (Log (js "Fatal error:")) :: hint
           ++ (match server_var ses with Some h => [Close_server h] | None => [] end)
           ++ [Exit 1]
       /\ (hint = [] \/ hint = [Hint_vpn])
       /\ count_step is_Exit before = 0
       /\ count_step is_Close_server before = 0).
Proof.
  intros S F.
  destruct (@runProxy_failing fs net version uuid a ses error r S F)
    as (t & starts & R & St).
  rewrite R. cbn [fst].
  destruct (fatal_shape error (server_var ses))
    as ((b & Fb & Eb & Cb) & _ & Ih & _ & _ & Hv).
  destruct (did_counts t) as (E & C & I & _ & H & _).
  split; [|split; [|split]]; cycle 3.
  { exists (did t ++ starts),
      (if includes (err_message error) SELF_SIGNED then [Hint_vpn] else []).
    unfold fatal. rewrite <- !app_assoc. split; [reflexivity|].
    split; [destruct (includes _ _); auto|].
    rewrite !count_step_app, E, C.
    destruct St as [->| ->]; split; reflexivity. }
  - exists (did t ++ starts ++ b). rewrite Fb, <- !app_assoc.
    split; [reflexivity|].
    rewrite !count_step_app, E, C, Eb, Cb.
    destruct St as [->| ->]; split; reflexivity.
  - rewrite !count_step_app, I, Ih. destruct St as [->| ->]; reflexivity.
  - rewrite <- Hv. split.
    + intros K. apply in_app_or in K as [K|K]; [destruct (H K)|].
      apply in_app_or in K as [K|K]; [|exact K].
      destruct St as [->| ->]; [destruct K|].
      destruct K as [K|[K|[]]]; discriminate.
    + intros K. apply in_or_app. right. apply in_or_app. now right.
Qed.

Lemma fatal_error_closes_server_then_exits_witness :
  (exists before,
     fst (runProxy disk_with_cert_and_key net_404 (js "0.1.0") (js "uuid")
            (mkProxyArgs (js "https://example.com/mcp") 3334 (js "localhost")
               None None None (js "0123abcd") None)
            (mkSession ([], Throw (Error (js "Error")
                                     (js "fetch failed: self-signed certificate in certificate chain")))
               (Some 7%N) (Ok tt)))
     = before ++ [Close_server 7] ++ [Exit 1])
  /\ In Hint_vpn
        (fst (runProxy disk_with_cert_and_key net_404 (js "0.1.0") (js "uuid")
                (mkProxyArgs (js "https://example.com/mcp") 3334 (js "localhost")
                   None None None (js "0123abcd") None)
                (mkSession ([], Throw (Error (js "Error")
                                         (js "fetch failed: self-signed certificate in certificate chain")))
                   (Some 7%N) (Ok tt)))).
Proof.
  destruct (@fatal_error_closes_server_then_exits disk_with_cert_and_key net_404
              (js "0.1.0") (js "uuid")
              (mkProxyArgs (js "https://example.com/mcp") 3334 (js "localhost")
                 None None None (js "0123abcd") None)
              (mkSession ([], Throw (Error (js "Error")
                                       (js "fetch failed: self-signed certificate in certificate chain")))
                 (Some 7%N) (Ok tt))
              (Error (js "Error")
                 (js "fetch failed: self-signed certificate in certificate chain"))
              _ eq_refl eq_refl) as ((b & E & _) & _ & H & _).
  split; [exists b; exact E|].
  apply H. exists (js "fetch failed: "), []. reflexivity.
Defined.

(** The set-up of [runProxy] fails exactly on a referenced TLS file that
    cannot be read, and then before any request. *)
Lemma runProxy_setup_outcome fs net version uuid url port hst scm sci res hash tls :
  match tls with
  | Some cfg =>
      match first_unreadable fs (referenced cfg) with
      | Some e =>
          outcome (runProxy_setup fs net version uuid url port hst scm sci res
                     hash tls) = Throw e
          /\ requests (events (runProxy_setup fs net version uuid url port hst scm
                                 sci res hash tls)) = []
      | None =>
          exists r, outcome (runProxy_setup fs net version uuid url port hst scm
                               sci res hash tls) = Ok r
      end
  | None =>
      exists r, outcome (runProxy_setup fs net version uuid url port hst scm sci
                           res hash tls) = Ok r
  end.
Proof.
  pose proof (runProxy_setup_run fs net version uuid url port hst scm sci res hash tls) as R.
  pose proof (constructor_outcome fs version uuid
                (mkOAuthProviderOptions url port hst None
                   (Some (js "MCP CLI Proxy")) None None None scm sci res
                   hash None tls)) as C.
  cbn [Types.tlsClientCert] in C.
  destruct tls as [cfg|];
    [destruct (first_unreadable fs (referenced cfg)) as [e|]|].
  - rewrite C in R. exact R.
  - destruct C as [p C]. rewrite C in R. destruct R as [O _]. eauto.
  - destruct C as [p C]. rewrite C in R. destruct R as [O _]. eauto.
Qed.

(** X17. A TLS file that cannot be read ends the process before anything
    else happens: [main] logs the fatal error and exits with code 1
    without having made a request, started the relay or the local
    transport, installed the signal handlers or printed the VPN hint. *)
Theorem tls_failure_exits_before_any_request
    fs net version uuid a ses cfg e :
  arg_tlsClientCert a = Some cfg ->
  first_unreadable fs (referenced cfg) = Some e ->
  (exists before,
     main fs net version uuid (Ok a) ses
     = before ++ [Did (Log (js "Fatal error:")); Exit 1]
     /\ count_step is_Exit before = 0)
  /\ count_step is_request (main fs net version uuid (Ok a) ses) = 0
  /\ count_step is_start (main fs net version uuid (Ok a) ses) = 0
  /\ ~ In Hint_vpn (main fs net version uuid (Ok a) ses).
Proof.
  intros T F.
  pose proof (runProxy_setup_outcome fs net version uuid
                (arg_serverUrl a) (arg_callbackPort a) (arg_host a)
                (arg_staticOAuthClientMetadata a) (arg_staticOAuthClientInfo a)
                (arg_authorizeResource a) (arg_serverUrlHash a)
                (arg_tlsClientCert a)) as S.
  rewrite T, F in S. destruct S as [O R].
  unfold main, runProxy. rewrite T in *.
  destruct (runProxy_setup _ _ _ _ _ _ _ _ _ _ _ _) as [t [x|e']];
    cbn [outcome events fst snd] in *; [discriminate|].
  destruct (did_counts t) as (E & _ & _ & St & H & Rq).
  split; [exists (did t); split; [reflexivity | exact E]|].
  rewrite !count_step_app, St, Rq, R. repeat split.
  intros K. apply in_app_or in K as [K|[K|[K|[]]]];
    [exact (H K) | discriminate | discriminate].
Qed.

Lemma tls_failure_exits_before_any_request_witness :
  main disk_with_cert_and_key net_ok (js "0.1.0") (js "uuid")
    (Ok (mkProxyArgs (js "https://example.com/mcp") 3334 (js "localhost")
           None None None (js "0123abcd") (Some cfg_missing_cert)))
    (mkSession ([], Ok (js "StreamableHTTPClientTransport")) None (Ok tt))
  = [Did (DebugLog (js "Creating custom TLS agent with client certificate"));
     Did (DebugLog (js "Loading TLS client certificate"));
     Did (ReadFileSync (js "/certs/nonexistent.crt"));
     Did (Log (js "Error loading TLS client certificate: "
               ++ String_of_error (ENOENT (js "/certs/nonexistent.crt"))))]
    ++ [Did (Log (js "Fatal error:")); Exit 1].
Proof.
  destruct (@tls_failure_exits_before_any_request disk_with_cert_and_key net_ok
              (js "0.1.0") (js "uuid")
              (mkProxyArgs (js "https://example.com/mcp") 3334 (js "localhost")
                 None None None (js "0123abcd") (Some cfg_missing_cert))
              (mkSession ([], Ok (js "StreamableHTTPClientTransport")) None (Ok tt))
              cfg_missing_cert (ENOENT (js "/certs/nonexistent.crt"))
              eq_refl eq_refl) as ((b & E & _) & _).
  rewrite E. f_equal.
  apply (app_inv_tail [Did (Log (js "Fatal error:")); Exit 1]).
  rewrite <- E. vm_compute. reflexivity.
Defined.

(** X18. The process exits exactly when something failed, the command
    line, a TLS file, the connection or the local transport: then it
    exits once, with code 1, as its last step, and the signal handlers are
    not installed. Otherwise it never exits on its own and the
    installation of the signal handlers is the last thing [runProxy]
    does. *)
Theorem process_exits_exactly_on_failure
    fs net version uuid parsed ses :
  match run_failure fs parsed ses with
  | Some _ =>
      (exists before,
         main fs net version uuid parsed ses = before ++ [Exit 1]
         /\ count_step is_Exit before = 0)
      /\ count_step is_Install_handlers (main fs net version uuid parsed ses) = 0
  | None =>
      (exists before,
         main fs net version uuid parsed ses = before ++ [Install_handlers]
         /\ count_step is_Install_handlers before = 0)
      /\ count_step is_Exit (main fs net version uuid parsed ses) = 0
  end.
Proof.
  unfold run_failure, main. destruct parsed as [a|e0].
  2:{ split; [exists [Did (Log (js "Fatal error:"))]; split; reflexivity | reflexivity]. }
  pose proof (runProxy_setup_outcome fs net version uuid
                (arg_serverUrl a) (arg_callbackPort a) (arg_host a)
                (arg_staticOAuthClientMetadata a) (arg_staticOAuthClientInfo a)
                (arg_authorizeResource a) (arg_serverUrlHash a)
                (arg_tlsClientCert a)) as S.
  assert (OKCASE : forall r,
             outcome (runProxy_setup fs net version uuid
                        (arg_serverUrl a) (arg_callbackPort a) (arg_host a)
                        (arg_staticOAuthClientMetadata a) (arg_staticOAuthClientInfo a)
                        (arg_authorizeResource a) (arg_serverUrlHash a)
                        (arg_tlsClientCert a)) = Ok r ->
             match failure ses with
             | Some _ =>
                 (exists before,
                    match runProxy fs net version uuid a ses with
                    | (t, Ok _) => t
                    | (t, Throw _) => t ++ [Did (Log (js "Fatal error:")); Exit 1]
                    end = before ++ [Exit 1]
                    /\ count_step is_Exit before = 0)
                 /\ count_step is_Install_handlers
                      match runProxy fs net version uuid a ses with
                      | (t, Ok _) => t
                      | (t, Throw _) => t ++ [Did (Log (js "Fatal error:")); Exit 1]
                      end = 0
             | None =>
                 (exists before,
                    match runProxy fs net version uuid a ses with
                    | (t, Ok _) => t
                    | (t, Throw _) => t ++ [Did (Log (js "Fatal error:")); Exit 1]
                    end = before ++ [Install_handlers]
                    /\ count_step is_Install_handlers before = 0)
                 /\ count_step is_Exit
                      match runProxy fs net version uuid a ses with
                      | (t, Ok _) => t
                      | (t, Throw _) => t ++ [Did (Log (js "Fatal error:")); Exit 1]
                      end = 0
             end).
  { intros r O. destruct (failure ses) as [error|] eqn:F.
    - destruct (@runProxy_failing fs net version uuid a ses error r O F)
        as (t & starts & R & St).
      rewrite R.
      destruct (fatal_shape error (server_var ses))
        as ((b & Fb & Eb & Cb) & _ & Ih & _).
      destruct (did_counts t) as (E & C & I & _).
      split.
      + exists (did t ++ starts ++ b
                ++ match server_var ses with Some h => [Close_server h] | None => [] end).
        rewrite Fb, <- !app_assoc. split; [reflexivity|].
        rewrite !count_step_app, E, Eb.
        destruct St as [->| ->]; destruct (server_var ses); reflexivity.
      + rewrite !count_step_app, I, Ih. destruct St as [->| ->]; reflexivity.
    - unfold runProxy, failure in *.
      destruct (runProxy_setup _ _ _ _ _ _ _ _ _ _ _ _) as [t [x|e]];
        cbn [outcome snd] in O; [|discriminate].
      destruct (connected ses) as [tc [name|e]]; cbn [outcome snd] in F;
        [|discriminate].
      destruct (started ses) as [[]|e]; [|discriminate].
      destruct (did_counts t) as (E & _ & I & _).
      destruct (did_counts tc) as (E' & _ & I' & _).
      split.
      + exists (did t ++ did tc
                ++ [Start_relay; Start_local;
                    Did (Log (js "Local STDIO server running"));
                    Did (Log (js "Proxy established successfully between local STDIO and remote " ++ name));
                    Did (Log (js "Press Ctrl+C to exit"))]).
        rewrite <- !app_assoc. split; [reflexivity|].
        rewrite !count_step_app, I, I'. reflexivity.
      + rewrite !count_step_app, E, E'. reflexivity. }
  destruct (arg_tlsClientCert a) as [cfg|] eqn:T.
  - destruct (first_unreadable fs (referenced cfg)) as [e|] eqn:U.
    + destruct S as [O _]. unfold runProxy. rewrite T.
      destruct (runProxy_setup _ _ _ _ _ _ _ _ _ _ _ _) as [t [x|e']];
        cbn [outcome snd] in O; [discriminate|].
      destruct (did_counts t) as (E & _ & I & _).
      split.
      * exists (did t ++ [Did (Log (js "Fatal error:"))]).
        rewrite <- app_assoc. split; [reflexivity|].
        now rewrite count_step_app, E.
      * now rewrite count_step_app, I.
    + destruct S as [r O]. exact (OKCASE r O).
  - destruct S as [r O]. exact (OKCASE r O).
Qed.


